(** * ssl_exporter: certificate state to metrics

    A shallow embedding of [ssl_exporter.go] and the properties its
    specification states about it.  The Go packages the file imports are
    modelled in modules named after them ([time], [pkix], [x509], [tls],
    [prometheus], [config], [prober]); the functions of [package main] keep
    their Go names at top level.

    Conventions.
    - A Go [string] is a [string]; a slice that the code only reads is a
      [list]; [map[string]T] is a [gmap string T].
    - [int64] arithmetic is written on [Z] with its wrap-around explicit.
    - [float64] is Rocq's primitive binary64 [float].
    - The channel [ch] handed to [Collect] is the list of metrics sent on it,
      oldest first. *)

From Stdlib Require Import ZArith List String Ascii Permutation Sorted.
From Stdlib Require Import Floats DecimalString DecimalZ DecimalPos Lia ZifyBool.
From stdpp Require Import base gmap strings list.

Local Open Scope Z_scope.

(** ** Machine integers *)

(** Two's complement reduction of an integer to 64 bits. *)
Definition int64 (z : Z) : Z := (z + 2 ^ 63) mod 2 ^ 64 - 2 ^ 63.

Definition MinInt64 : Z := - 2 ^ 63.
Definition MaxInt64 : Z := 2 ^ 63 - 1.

(** Decimal rendering of an integer: what [strconv.Itoa] and
    the [String] method of [big.Int] print for a non-nil receiver. *)
Definition decimal (z : Z) : string := NilZero.string_of_int (Z.to_int z).

(** ** package time *)

Module time.

(** A [time.Time] without monotonic reading and in UTC: [sec] counts the
    seconds since January 1, year 1 00:00:00 UTC (it is negative before
    that instant), [nsec] the nanoseconds within the second. *)
Record Time : Type := mkTime { sec : Z; nsec : Z }.

(** [time.Time{}]. *)
Definition zero : Time := mkTime 0 0.

(** [func (t Time) IsZero() bool { return t.sec() == 0 && t.nsec() == 0 }] *)
Definition IsZero (t : Time) : bool := (sec t =? 0) && (nsec t =? 0).

(** [ts > us || ts == us && t.nsec() > u.nsec()] *)
Definition After (t u : Time) : bool :=
  (sec t >? sec u) || ((sec t =? sec u) && (nsec t >? nsec u)).

(** [ts < us || ts == us && t.nsec() < u.nsec()] *)
Definition Before (t u : Time) : bool :=
  (sec t <? sec u) || ((sec t =? sec u) && (nsec t <? nsec u)).

(** Seconds from year 1 to 1970:
    [(1969*365 + 1969/4 - 1969/100 + 1969/400) * secondsPerDay]. *)
Definition unixToInternal : Z :=
  (1969 * 365 + 1969 / 4 - 1969 / 100 + 1969 / 400) * 86400.
Definition internalToUnix : Z := - unixToInternal.

Definition unixSec (t : Time) : Z := int64 (sec t + internalToUnix).

(** [t.unixSec() * 1e9 + int64(t.nsec())], in [int64]. *)
Definition UnixNano (t : Time) : Z :=
  int64 (int64 (unixSec t * 1000000000) + nsec t).

(** A [time.Duration] is an [int64] count of nanoseconds. *)
Definition Duration : Type := Z.

End time.

(** ** package crypto/x509 (and pkix, net, math/big) *)

Module pkix.
(** The two fields of [pkix.Name] the exporter reads. *)
Record Name : Type := mkName {
  CommonName : string;
  OrganizationalUnit : list string
}.
End pkix.

Module net.
(** [type IP []byte] *)
Definition IP : Type := list Z.
End net.

Module big.
(** A [*big.Int]: [None] is the nil pointer. *)
Definition Int : Type := option Z.

(** The method [String] of [big.Int]: base 10, and ["<nil>"] for nil. *)
Definition String (x : Int) : string :=
  match x with
  | Some z => decimal z
  | None => "<nil>"
  end.
End big.

Module x509.
(** The fields of [x509.Certificate] the exporter reads. *)
Record Certificate : Type := mkCertificate {
  SerialNumber : big.Int;
  Issuer : pkix.Name;
  Subject : pkix.Name;
  NotBefore : time.Time;
  NotAfter : time.Time;
  DNSNames : list string;
  EmailAddresses : list string;
  IPAddresses : list net.IP
}.
End x509.

(** ** package crypto/tls *)

Module tls.
Definition VersionTLS10 : Z := 0x0301.
Definition VersionTLS11 : Z := 0x0302.
Definition VersionTLS12 : Z := 0x0303.
Definition VersionTLS13 : Z := 0x0304.

(** The fields of [tls.ConnectionState] the exporter reads.  A chain is a
    [[]*x509.Certificate]; no code of the exporter writes through a
    certificate pointer, so certificates are held by value. *)
Record ConnectionState : Type := mkConnectionState {
  Version : Z;
  PeerCertificates : list x509.Certificate;
  VerifiedChains : list (list x509.Certificate)
}.
End tls.

(** ** package strings *)

(** [strings.Join(elems, sep)]. *)
Fixpoint Join_rest (elems : list string) (sep : string) : string :=
  match elems with
  | [] => ""
  | s :: rest => sep +:+ s +:+ Join_rest rest sep
  end.

Definition Join (elems : list string) (sep : string) : string :=
  match elems with
  | [] => ""
  | s :: rest => s +:+ Join_rest rest sep
  end.

(** ** package prometheus *)

Module prometheus.

(** [func BuildFQName(namespace, subsystem, name string) string] *)
Definition BuildFQName (namespace subsystem name : string) : string :=
  if String.eqb name "" then ""
  else if negb (String.eqb namespace "") && negb (String.eqb subsystem "")
  then Join [namespace; subsystem; name] "_"
  else if negb (String.eqb namespace "")
  then Join [namespace; name] "_"
  else if negb (String.eqb subsystem "")
  then Join [subsystem; name] "_"
  else name.

(** A metric descriptor: fully qualified name, help text and the names of
    its variable labels, in order. *)
Record Desc : Type := mkDesc {
  fqName : string;
  help : string;
  variableLabels : list string
}.

Definition NewDesc (fqName help : string) (variableLabels : list string)
  : Desc := mkDesc fqName help variableLabels.

(** A constant gauge sample.  Every value the exporter stores is an integer
    of magnitude below [2^53], which [float64] holds exactly, so the value
    is kept as that integer. *)
Record Metric : Type := mkMetric {
  desc : Desc;
  value : Z;
  labelValues : list string
}.

(** [MustNewConstMetric(desc, GaugeValue, value, labelValues...)]. *)
Definition MustNewConstMetric (d : Desc) (v : Z) (lvs : list string)
  : Metric := mkMetric d v lvs.

End prometheus.

(** ** packages config and prober of the repository *)

Module config.
(** Modelled from the spec: the declaration of [config.Module], which lives
    in the repository's config package.  The spec describes a module as
    "a name, a prober-type identifier (string key into the Probe Contract
    registry), and prober-specific configuration (opaque to the core)";
    the exporter reads the prober-type identifier only. *)
Record Module_ : Type := mkModule { Prober : string }.

(** Modelled from the spec: [config.Config], of which the exporter reads the
    named modules, a [map[string]Module]. *)
Record Config : Type := mkConfig { Modules : gmap string Module_ }.
End config.

Module prober.
(** A Go [error], by its message. *)
Definition error : Type := string.

(** Modelled from the spec: the Probe Contract [prober.ProbeFn],
    "probe(target: string, module: Module, timeout: duration) ->
    Result<ConnectionState, ProbeError>".  [inr err] is a non-nil [err]. *)
Definition ProbeFn : Type :=
  string -> config.Module_ -> time.Duration -> tls.ConnectionState + error.
End prober.

(** ** package main *)

Import prometheus.

Definition namespace : string := "ssl".

Definition tlsConnectSuccess : Desc :=
  NewDesc (BuildFQName namespace "" "tls_connect_success")
    "If the TLS connection was a success" [].

Definition tlsVersion : Desc :=
  NewDesc (BuildFQName namespace "" "tls_version_info")
    "The TLS version used" ["version"].

Definition proberType : Desc :=
  NewDesc (BuildFQName namespace "" "prober")
    "The prober used by the exporter to connect to the target" ["prober"].

Definition notBefore : Desc :=
  NewDesc (BuildFQName namespace "" "cert_not_before")
    "NotBefore expressed as a Unix Epoch Time"
    ["serial_no"; "issuer_cn"; "cn"; "dnsnames"; "ips"; "emails"; "ou"].

Definition notAfter : Desc :=
  NewDesc (BuildFQName namespace "" "cert_not_after")
    "NotAfter expressed as a Unix Epoch Time"
    ["serial_no"; "issuer_cn"; "cn"; "dnsnames"; "ips"; "emails"; "ou"].

Definition verifiedNotBefore : Desc :=
  NewDesc (BuildFQName namespace "" "verified_cert_not_before")
    "NotBefore expressed as a Unix Epoch Time for a certificate in the list of verified chains"
    ["chain_no"; "serial_no"; "issuer_cn"; "cn"; "dnsnames"; "ips"; "emails"; "ou"].

Definition verifiedNotAfter : Desc :=
  NewDesc (BuildFQName namespace "" "verfied_cert_not_after")
    "NotAfter expressed as a Unix Epoch Time for a certificate in the list of verified chains"
    ["chain_no"; "serial_no"; "issuer_cn"; "cn"; "dnsnames"; "ips"; "emails"; "ou"].

(** [type Exporter struct] *)
Record Exporter : Type := mkExporter {
  target : string;
  prober_ : prober.ProbeFn;
  timeout : time.Duration;
  module : config.Module_
}.

(** [func getTLSVersion(state *tls.ConnectionState) string] *)
Definition getTLSVersion (state : tls.ConnectionState) : string :=
  if tls.Version state =? tls.VersionTLS10 then "TLS 1.0"
  else if tls.Version state =? tls.VersionTLS11 then "TLS 1.1"
  else if tls.Version state =? tls.VersionTLS12 then "TLS 1.2"
  else if tls.Version state =? tls.VersionTLS13 then "TLS 1.3"
  else "unknown".

(** [func contains(certs []*x509.Certificate, cert *x509.Certificate) bool] *)
Fixpoint contains (certs : list x509.Certificate) (cert : x509.Certificate)
  : bool :=
  match certs with
  | [] => false
  | c :: rest =>
      if String.eqb (big.String (x509.SerialNumber c))
                    (big.String (x509.SerialNumber cert))
         && String.eqb (pkix.CommonName (x509.Issuer c))
                       (pkix.CommonName (x509.Issuer cert))
      then true
      else contains rest cert
  end.

(** [func uniq(certs []*x509.Certificate) []*x509.Certificate]: the loop
    over [certs] with the accumulator [r], which starts empty. *)
Definition uniq (certs : list x509.Certificate) : list x509.Certificate :=
  fold_left (fun r c => if negb (contains r c) then r ++ [c] else r) certs [].

(** [func getDNSNames(cert *x509.Certificate) string] *)
Definition getDNSNames (cert : x509.Certificate) : string :=
  if (0 <? Z.of_nat (length (x509.DNSNames cert)))
  then "," +:+ Join (x509.DNSNames cert) "," +:+ ","
  else "".

(** [func getEmailAddresses(cert *x509.Certificate) string] *)
Definition getEmailAddresses (cert : x509.Certificate) : string :=
  if (0 <? Z.of_nat (length (x509.EmailAddresses cert)))
  then "," +:+ Join (x509.EmailAddresses cert) "," +:+ ","
  else "".

(** [func getOrganizationalUnits(cert *x509.Certificate) string] *)
Definition getOrganizationalUnits (cert : x509.Certificate) : string :=
  if (0 <? Z.of_nat (length (pkix.OrganizationalUnit (x509.Subject cert))))
  then "," +:+ Join (pkix.OrganizationalUnit (x509.Subject cert)) "," +:+ ","
  else "".

(** The effective expiry a chain is ranked by: the loop that the comparison
    function handed to [sort.Slice] runs over [verifiedChains[i]], from
    [iExpiry := time.Time{}]. *)
Definition chainExpiry (chain : list x509.Certificate) : time.Time :=
  fold_left
    (fun iExpiry cert =>
       if (time.IsZero iExpiry || time.Before (x509.NotAfter cert) iExpiry)
          && negb (time.IsZero (x509.NotAfter cert))
       then x509.NotAfter cert
       else iExpiry)
    chain time.zero.

(** The closure handed to [sort.Slice], on the two chains it reads:
    [return iExpiry.After(jExpiry)]. *)
Definition chainLess (ci cj : list x509.Certificate) : bool :=
  time.After (chainExpiry ci) (chainExpiry cj).

(** ** package sort *)

Module sort.
Section lessSwap.
Context {A : Type} (less : A -> A -> bool).

(** [data.Less(i, j)] of a [lessSwap]: the user's [less], which reads the
    elements now at [i] and [j]. *)
Definition Less (data : list A) (i j : nat) : bool :=
  match data !! i, data !! j with
  | Some x, Some y => less x y
  | _, _ => false
  end.

(** [data.Swap(i, j)], in place. *)
Definition Swap (data : list A) (i j : nat) : list A :=
  match data !! i, data !! j with
  | Some x, Some y => <[i := y]> (<[j := x]> data)
  | _, _ => data
  end.

(** [for j := i; j > a && data.Less(j, j-1); j-- { data.Swap(j, j-1) }] *)
Fixpoint insertionSort_inner (data : list A) (a j : nat) : list A :=
  match j with
  | O => data
  | S j' =>
      if (a <? j)%nat && Less data j j'
      then insertionSort_inner (Swap data j j') a j'
      else data
  end.

(** [n] rounds of [for i := a + 1; i < b; i++], from round [i]. *)
Fixpoint insertionSort_outer (n : nat) (data : list A) (a i : nat) : list A :=
  match n with
  | O => data
  | S n' => insertionSort_outer n' (insertionSort_inner data a i) a (S i)
  end.

(** [func insertionSort_func(data lessSwap, a, b int)] *)
Definition insertionSort_func (data : list A) (a b : nat) : list A :=
  insertionSort_outer (b - (a + 1)) data a (a + 1).

(** [n] rounds of the shell sort pass with gap 6:
    [for i := a + 6; i < b; i++ { if data.Less(i, i-6) { data.Swap(i, i-6) } }] *)
Fixpoint shellPass (n : nat) (data : list A) (i : nat) : list A :=
  match n with
  | O => data
  | S n' =>
      shellPass n'
        (if Less data i (i - 6) then Swap data i (i - 6) else data) (S i)
  end.

(** [func quickSort_func(data lessSwap, a, b, maxDepth int)] of Go up to
    1.18, on a range of at most 12 elements: the partitioning loop
    [for b-a > 12] is then not entered, and what runs is the shell pass
    followed by the insertion sort.  The same two passes sort a range of any
    length, so the function is defined for all of them. *)
Definition quickSort_func (data : list A) (a b : nat) : list A :=
  if (1 <? b - a)%nat
  then insertionSort_func (shellPass (b - (a + 6)) data (a + 6)) a b
  else data.

(** [func Slice(slice interface{}, less func(i, j int) bool)] *)
Definition Slice (data : list A) : list A :=
  quickSort_func data 0 (length data).

End lessSwap.
End sort.

(** ** package strconv and conversions *)

(** The integer a finite [float64] truncates to, toward zero. *)
Definition float64_trunc (f : float) : option Z :=
  match Prim2SF f with
  | S754_zero _ => Some 0
  | S754_finite s m e =>
      let a := if 0 <=? e then Z.pos m * 2 ^ e else Z.pos m / 2 ^ (- e) in
      Some (if s then - a else a)
  | S754_infinity _ | S754_nan => None
  end.

(** The conversion [int64(f)] of a [float64].  The fraction is discarded;
    when the result does not fit in [int64] (or [f] is an infinity or a NaN)
    the language leaves the value to the implementation, here [unrep f]. *)
Definition int64_of_float64 (unrep : float -> Z) (f : float) : Z :=
  match float64_trunc f with
  | Some z => if (MinInt64 <=? z) && (z <=? MaxInt64) then z else unrep f
  | None => unrep f
  end.

(** ** package net/http *)

Module http.
Definition StatusBadRequest : Z := 400.
Definition StatusInternalServerError : Z := 500.

(** [url.Values] and [http.Header] are both [map[string][]string]. *)
Abbreviation Values := (gmap string (list string)).

(** [Get]: the first value associated with the key, or [""]. *)
Definition Get (v : Values) (key : string) : string :=
  match v !! key with
  | Some (s :: _) => s
  | _ => ""
  end.

(** What [probeHandler] reads of a [*http.Request]: [r.URL.Query()] and
    [r.Header]. *)
Record Request : Type := mkRequest { Query : Values; Header : Values }.
End http.

(** ** The exporter over its library functions *)

(** What a call of [Collect] leaves behind: the metrics sent on [ch], and
    the connection state the prober returned as it stands afterwards
    ([None] when the prober returned an error). *)
Definition Collected : Type :=
  (list Metric * option tls.ConnectionState)%type.

(** How [probeHandler] answers: [http.Error(w, msg, code)], or the registry
    with the exporter registered is served, which runs [Collect]. *)
Inductive Response : Type :=
| Error (msg : string) (code : Z)
| ServeHTTP (exporter : Exporter) (collected : Collected).

Section Exporter.

(** The method [String] of [net.IP]. *)
Variable IP_String : net.IP -> string.

(** [sort.Slice], as a function from the slice before the call to the slice
    after it. *)
Variable sort_Slice : forall A : Type, (A -> A -> bool) -> list A -> list A.

(** [strconv.ParseFloat(v, 64)]: [inr err] is a non-nil [err]. *)
Variable ParseFloat : string -> float + prober.error.

(** [strconv.Quote], which the verb [%q] applies to a string. *)
Variable Quote : string -> string.

(** The implementation's [int64] for a [float64] that does not fit. *)
Variable unrep : float -> Z.

(** The package variable [prober.Probers], a [map[string]ProbeFn]. *)
Variable Probers : gmap string prober.ProbeFn.

(** [func getIPAddresses(cert *x509.Certificate) string] *)
Definition getIPAddresses (cert : x509.Certificate) : string :=
  if (0 <? Z.of_nat (length (x509.IPAddresses cert)))
  then fold_left (fun ips ip => (ips +:+ IP_String ip) +:+ ",")
         (x509.IPAddresses cert) ","
  else "".

(** The seven label values every certificate metric carries, in the order
    the calls of [MustNewConstMetric] list them. *)
Definition certLabelValues (cert : x509.Certificate) : list string :=
  [ big.String (x509.SerialNumber cert);
    pkix.CommonName (x509.Issuer cert);
    pkix.CommonName (x509.Subject cert);
    getDNSNames cert;
    getIPAddresses cert;
    getEmailAddresses cert;
    getOrganizationalUnits cert ].

(** [float64(t.UnixNano()/1e9)]: Go's integer division truncates. *)
Definition unixSeconds (t : time.Time) : Z :=
  Z.quot (time.UnixNano t) 1000000000.

(** Body of [for _, cert := range peerCertificates]. *)
Definition peerCertificateMetrics (cert : x509.Certificate) : list Metric :=
  (if negb (time.IsZero (x509.NotAfter cert))
   then [MustNewConstMetric notAfter (unixSeconds (x509.NotAfter cert))
           (certLabelValues cert)]
   else [])
  ++
  (if negb (time.IsZero (x509.NotBefore cert))
   then [MustNewConstMetric notBefore (unixSeconds (x509.NotBefore cert))
           (certLabelValues cert)]
   else []).

(** Body of [for _, cert := range chain] in the loop over the verified
    chains, with [chainNo := strconv.Itoa(i)]. *)
Definition verifiedCertificateMetrics (i : nat) (cert : x509.Certificate)
  : list Metric :=
  let chainNo := decimal (Z.of_nat i) in
  (if negb (time.IsZero (x509.NotAfter cert))
   then [MustNewConstMetric verifiedNotAfter
           (unixSeconds (x509.NotAfter cert))
           (chainNo :: certLabelValues cert)]
   else [])
  ++
  (if negb (time.IsZero (x509.NotBefore cert))
   then [MustNewConstMetric verifiedNotBefore
           (unixSeconds (x509.NotBefore cert))
           (chainNo :: certLabelValues cert)]
   else []).

(** Body of [for i, chain := range verifiedChains]: [chain = uniq(chain)]
    rebinds the loop variable only. *)
Definition verifiedChainMetrics (i : nat) (chain : list x509.Certificate)
  : list Metric :=
  let chain := uniq chain in
  flat_map (verifiedCertificateMetrics i) chain.

(** [func (e *Exporter) Collect(ch chan<- prometheus.Metric)].

    [state] points to the connection state the prober returned.
    [verifiedChains := state.VerifiedChains] copies the slice header, so
    [sort.Slice(verifiedChains, ...)] swaps the elements of the array that
    [state.VerifiedChains] refers to: the state after the call holds the
    sorted chains.  [uniq] appends to a slice of its own, and its result is
    bound to a local variable. *)
Definition Collect (e : Exporter) : Collected :=
  let ch := [MustNewConstMetric proberType 1 [config.Prober (module e)]] in
  match prober_ e (target e) (module e) (timeout e) with
  | inr err =>
      (ch ++ [MustNewConstMetric tlsConnectSuccess 0 []], None)
  | inl state =>
      let ch := ch ++ [MustNewConstMetric tlsVersion 1 [getTLSVersion state]] in
      let peerCertificates := tls.PeerCertificates state in
      if (Z.of_nat (length peerCertificates) <? 1)
      then (ch ++ [MustNewConstMetric tlsConnectSuccess 0 []], Some state)
      else
        let ch := ch ++ [MustNewConstMetric tlsConnectSuccess 1 []] in
        let peerCertificates := uniq peerCertificates in
        let ch := ch ++ flat_map peerCertificateMetrics peerCertificates in
        let verifiedChains := sort_Slice _ chainLess (tls.VerifiedChains state) in
        let state :=
          tls.mkConnectionState (tls.Version state)
            (tls.PeerCertificates state) verifiedChains in
        let ch := ch ++ concat (imap verifiedChainMetrics verifiedChains) in
        (ch, Some state)
  end.

(** [func probeHandler(w http.ResponseWriter, r *http.Request,
    conf *config.Config)] *)
Definition probeHandler (r : http.Request) (conf : config.Config) : Response :=
  let moduleName := http.Get (http.Query r) "module" in
  let moduleName := if String.eqb moduleName "" then "tcp" else moduleName in
  match config.Modules conf !! moduleName with
  | None => Error ("Unknown module " +:+ Quote moduleName) http.StatusBadRequest
  | Some module =>
      let v := http.Get (http.Header r) "X-Prometheus-Scrape-Timeout-Seconds" in
      match (if negb (String.eqb v "") then ParseFloat v else inl 10%float) with
      | inr err =>
          Error ("Failed to parse timeout from Prometheus header: " +:+ err)
            http.StatusInternalServerError
      | inl timeoutSeconds =>
          let timeoutSeconds :=
            if PrimFloat.eqb timeoutSeconds 0 then 10%float
            else timeoutSeconds in
          let timeout := int64_of_float64 unrep (timeoutSeconds * 1e9)%float in
          let target := http.Get (http.Query r) "target" in
          if String.eqb target ""
          then Error "Target parameter is missing" http.StatusBadRequest
          else
            match Probers !! config.Prober module with
            | None =>
                Error ("Unknown prober " +:+ Quote (config.Prober module))
                  http.StatusBadRequest
            | Some prober =>
                let exporter := mkExporter target prober timeout module in
                ServeHTTP exporter (Collect exporter)
            end
      end
  end.

End Exporter.

(** ** Instances of the library functions and data for the worked examples *)

Definition dquote : string := String (ascii_of_nat 34) "".

(** The method [String] of [net.IP] on a four-byte address: dotted decimal.
    The examples hold no address of another length. *)
Definition IP_String_dotted (ip : net.IP) : string :=
  match ip with
  | [a; b; c; d] =>
      decimal a +:+ "." +:+ decimal b +:+ "." +:+ decimal c +:+ "." +:+ decimal d
  | _ => "?"
  end.

(** Value of a string of decimal digits, [None] when another character
    occurs in it. *)
Fixpoint digits (s : string) (acc : Z) : option Z :=
  match s with
  | EmptyString => Some acc
  | String c rest =>
      let n := Z.of_nat (nat_of_ascii c) in
      if (48 <=? n) && (n <=? 57) then digits rest (10 * acc + (n - 48))
      else None
  end.

(** The message of the [*strconv.NumError] for a string that is no number. *)
Definition syntaxError (s : string) : prober.error :=
  "strconv.ParseFloat: parsing " +:+ dquote +:+ s +:+ dquote
  +:+ ": invalid syntax".

(** [strconv.ParseFloat(s, 64)] on the strings of the examples: a decimal
    integer below [2^53] with an optional sign is read exactly, and a
    string with no digit at all is a syntax error. *)
Definition ParseFloat_integers (s : string) : float + prober.error :=
  let '(neg, body) :=
    match s with
    | String "-" rest => (true, rest)
    | String "+" rest => (false, rest)
    | _ => (false, s)
    end in
  match body, digits body 0 with
  | String _ _, Some z =>
      if z <? 2 ^ 53
      then let f := PrimFloat.of_uint63 (Uint63.of_Z z) in
           inl (if neg then (- f)%float else f)
      else inr (syntaxError s)
  | _, _ => inr (syntaxError s)
  end.

(** [strconv.Quote] on a string of printable ASCII with no quote and no
    backslash in it: the string between double quotes. *)
Definition Quote_plain (s : string) : string := dquote +:+ s +:+ dquote.

(** On amd64 a [float64] that does not fit converts to the smallest
    [int64]. *)
Definition unrep_amd64 (f : float) : Z := MinInt64.

(** [time.Unix(u, 0)] in UTC. *)
Definition unixTime (u : Z) : time.Time := time.mkTime (u + time.unixToInternal) 0.

Definition someCA : pkix.Name := pkix.mkName "Example CA" [].
Definition someRoot : pkix.Name := pkix.mkName "Example Root" [].

(** A leaf certificate valid from 2023-01-01 to 2024-01-01. *)
Definition leafCert : x509.Certificate :=
  x509.mkCertificate (Some 1001) someCA (pkix.mkName "example.com" ["web"])
    (unixTime 1672531200) (unixTime 1704067200)
    ["a.com"; "b.com"] [] [[192; 0; 2; 1]].

(** Its issuer, valid from 2020-01-01 to 2030-01-01. *)
Definition caCert : x509.Certificate :=
  x509.mkCertificate (Some 7) someRoot someCA
    (unixTime 1577836800) (unixTime 1893456000) [] [] [].

(** A certificate with serial number [n], issued by the example CA, that
    expires [u] seconds after the Unix epoch and has no start date. *)
Definition certExpiring (n u : Z) : x509.Certificate :=
  x509.mkCertificate (Some n) someCA (pkix.mkName "example.com" [])
    time.zero (unixTime u) [] [] [].

(** A certificate with neither date set. *)
Definition undatedCert : x509.Certificate :=
  x509.mkCertificate (Some 9) someCA (pkix.mkName "example.com" [])
    time.zero time.zero [] [] [].

(** A certificate that expired one second before year 1 began. *)
Definition ancientCert : x509.Certificate :=
  x509.mkCertificate (Some 8) someCA (pkix.mkName "example.com" [])
    time.zero (time.mkTime (-1) 0) [] [] [].

(** Seven verified chains of one certificate each; the first and the fourth
    expire at the same instant, the last one later than both. *)
Definition sevenChains : list (list x509.Certificate) :=
  [ [certExpiring 0 1704067200]; [certExpiring 1 1700000000];
    [certExpiring 2 1690000000]; [certExpiring 3 1704067200];
    [certExpiring 4 1680000000]; [certExpiring 5 1670000000];
    [certExpiring 6 1735689600] ].

Definition tcpModule : config.Module_ := config.mkModule "tcp".

(** A prober that returns the connection state it is built from. *)
Definition proberReturning (state : tls.ConnectionState) : prober.ProbeFn :=
  fun _ _ _ => inl state.

(** A prober that fails. *)
Definition proberFailing : prober.ProbeFn :=
  fun _ _ _ => inr "dial tcp: connection refused".

(** A handshake over TLS 1.3 that presented the leaf and its issuer and
    verified one chain. *)
Definition goodState : tls.ConnectionState :=
  tls.mkConnectionState tls.VersionTLS13 [leafCert; caCert]
    [[leafCert; caCert]].

(** A handshake over TLS 1.2 that presented no certificate. *)
Definition emptyState : tls.ConnectionState :=
  tls.mkConnectionState tls.VersionTLS12 [] [].

Definition exporterOf (p : prober.ProbeFn) : Exporter :=
  mkExporter "example.com:443" p 10000000000 tcpModule.

Definition defaultConfig : config.Config :=
  config.mkConfig {[ "tcp" := tcpModule ]}.

Definition someProbers : gmap string prober.ProbeFn :=
  {[ "tcp" := proberReturning goodState ]}.

(** [GET /probe?target=example.com:443] with the scrape timeout header set
    to [v]. *)
Definition requestWithTimeout (v : string) : http.Request :=
  http.mkRequest {[ "target" := ["example.com:443"] ]}
    {[ "X-Prometheus-Scrape-Timeout-Seconds" := [v] ]}.

(** [Collect] and [probeHandler] over the instances above. *)
Definition Collect_go : Exporter -> Collected :=
  Collect IP_String_dotted (@sort.Slice).

Definition probeHandler_go : http.Request -> config.Config -> Response :=
  probeHandler IP_String_dotted (@sort.Slice) ParseFloat_integers Quote_plain
    unrep_amd64 someProbers.

(** ** The specification's words, as definitions *)

(** "Certificate Identity Key: the pair (serial number as decimal string,
    issuer common name)." *)
Definition IdentityKey (c : x509.Certificate) : string * string :=
  (big.String (x509.SerialNumber c), pkix.CommonName (x509.Issuer c)).

(** No certificate of [earlier] has the Identity Key of [c]. *)
Definition firstOccurrence (earlier : list x509.Certificate)
  (c : x509.Certificate) : bool :=
  forallb (fun d => negb (bool_decide (IdentityKey d = IdentityKey c))) earlier.

(** "Preserves the first occurrence of each distinct Identity Key, in
    original order; drops subsequent duplicates": a certificate stays when
    none of the certificates [earlier] in the input has its Identity Key. *)
Fixpoint keepFirst (earlier certs : list x509.Certificate)
  : list x509.Certificate :=
  match certs with
  | [] => []
  | c :: rest =>
      (if firstOccurrence earlier c then [c] else [])
      ++ keepFirst (earlier ++ [c]) rest
  end.

Definition Deduplicate (certs : list x509.Certificate)
  : list x509.Certificate := keepFirst [] certs.

(** "Produce a string that starts and ends with a delimiter and joins names
    with that same delimiter; empty sequence yields empty string." *)
Definition delimited (names : list string) : string :=
  match names with
  | [] => ""
  | _ :: _ => "," +:+ Join names "," +:+ ","
  end.

(** "The minimum not-after timestamp among all certificates in the chain
    that have a non-zero not-after; a chain with no certificate carrying a
    non-zero not-after has effective expiry equal to the zero/unset
    timestamp." *)
Definition EffectiveExpiry (chain : list x509.Certificate) (t : time.Time)
  : Prop :=
  (Forall (fun c => time.IsZero (x509.NotAfter c) = true) chain
   /\ t = time.zero)
  \/
  (time.IsZero t = false
   /\ (exists c, In c chain /\ x509.NotAfter c = t)
   /\ forall c, In c chain -> time.IsZero (x509.NotAfter c) = false ->
                time.Before (x509.NotAfter c) t = false).

(** ** The contract of sort.Slice *)

(** What [sort.Slice] asks of [less]: a strict weak ordering. *)
Record StrictWeakOrder {A : Type} (less : A -> A -> bool) : Prop := {
  less_irrefl : forall x, less x x = false;
  less_trans : forall x y z,
    less x y = true -> less y z = true -> less x z = true;
  less_incomparable_trans : forall x y z,
    less x y = false -> less y x = false ->
    less y z = false -> less z y = false ->
    less x z = false /\ less z x = false
}.

(** [sort.SliceIsSorted]: no element is less than the one before it. *)
Definition SliceIsSorted {A : Type} (less : A -> A -> bool) (l : list A)
  : Prop := Sorted (fun x y => less y x = false) l.

(** Where the element [x] goes among the elements before it, listed from
    the nearest one: below every element it is less than. *)
Fixpoint insertBelow {A : Type} (less : A -> A -> bool) (x : A)
  (before : list A) : list A :=
  match before with
  | [] => [x]
  | p :: rest => if less x p then p :: insertBelow less x rest else x :: before
  end.

#[global] Instance Time_eq_dec : EqDecision time.Time.
Proof. solve_decision. Defined.

(** "Chains with equal effective expiry retain relative input order": for
    every instant, the chains that expire at it come in the same order in
    the ranked sequence as in the input. *)
Definition tiesKeepOrder (input ranked : list (list x509.Certificate))
  : Prop :=
  forall t : time.Time,
    List.filter (fun chain => bool_decide (chainExpiry chain = t)) ranked
    = List.filter (fun chain => bool_decide (chainExpiry chain = t)) input.

(** The module name a request selects: [module], or ["tcp"] when absent. *)
Definition moduleNameOf (r : http.Request) : string :=
  if String.eqb (http.Get (http.Query r) "module") "" then "tcp"
  else http.Get (http.Query r) "module".

(** The value of the scrape timeout header, [""] when absent. *)
Definition timeoutHeader (r : http.Request) : string :=
  http.Get (http.Header r) "X-Prometheus-Scrape-Timeout-Seconds".

(** The request errors of the specification: "malformed or missing scrape
    parameters, unknown module/prober name". *)
Definition UnknownModule (conf : config.Config) (r : http.Request) : Prop :=
  config.Modules conf !! moduleNameOf r = None.

Definition MalformedTimeout (ParseFloat : string -> float + prober.error)
  (r : http.Request) : Prop :=
  timeoutHeader r <> "" /\ exists err, ParseFloat (timeoutHeader r) = inr err.

Definition MissingTarget (r : http.Request) : Prop :=
  http.Get (http.Query r) "target" = "".

Definition UnknownProber (Probers : gmap string prober.ProbeFn)
  (conf : config.Config) (r : http.Request) : Prop :=
  exists module, config.Modules conf !! moduleNameOf r = Some module
                 /\ Probers !! config.Prober module = None.

Definition RequestError (ParseFloat : string -> float + prober.error)
  (Probers : gmap string prober.ProbeFn)
  (conf : config.Config) (r : http.Request) : Prop :=
  UnknownModule conf r \/ MalformedTimeout ParseFloat r
  \/ MissingTarget r \/ UnknownProber Probers conf r.

(** The messages [probeHandler] answers a request error with. *)
Definition humanReadable (msg : string) : Prop :=
  (exists name, msg = "Unknown module " +:+ name)
  \/ (exists err,
        msg = "Failed to parse timeout from Prometheus header: " +:+ err)
  \/ msg = "Target parameter is missing"
  \/ (exists name, msg = "Unknown prober " +:+ name).

(** A sample of the given metric name and value. *)
Definition sampleOf (m : Metric) : string * Z := (fqName (desc m), value m).

(** ** Further definitions for the properties of the whole exporter *)

(** [func (e *Exporter) Describe(ch chan<- *prometheus.Desc)]: the
    descriptors sent on [ch], oldest first. *)
Definition Describe (e : Exporter) : list Desc :=
  [ tlsConnectSuccess; tlsVersion; proberType; notAfter; notBefore;
    verifiedNotAfter; verifiedNotBefore ].

#[global] Instance Desc_eq_dec : EqDecision Desc.
Proof. solve_decision. Defined.

(** What identifies a sample to a registry: the name of its metric and its
    label values. *)
Definition identity (m : Metric) : string * list string :=
  (fqName (desc m), labelValues m).

(** The samples of one descriptor among the metrics sent, in order. *)
Definition samplesOf (d : Desc) (ch : list Metric) : list Metric :=
  List.filter (fun m => bool_decide (desc m = d)) ch.

(** The comma character, and the strings that hold none. *)
Definition comma : ascii := ascii_of_nat 44.

Fixpoint commaFree (s : string) : Prop :=
  match s with
  | EmptyString => True
  | String c rest => c <> comma /\ commaFree rest
  end.

(** The pieces of a string between its commas. *)
Fixpoint fields (s : string) : list string :=
  match s with
  | EmptyString => [EmptyString]
  | String c rest =>
      if Ascii.eqb c comma then EmptyString :: fields rest
      else match fields rest with
           | f :: fs => String c f :: fs
           | [] => [String c EmptyString]
           end
  end.

(** [s] occurs in [label] between two commas. *)
Definition delimitedIn (s label : string) : Prop :=
  exists before after, label = before +:+ "," +:+ s +:+ "," +:+ after.

(** The three metrics that open a collection once the handshake returned a
    certificate. *)
Definition preamble (e : Exporter) (state : tls.ConnectionState)
  : list Metric :=
  [ MustNewConstMetric proberType 1 [config.Prober (module e)];
    MustNewConstMetric tlsVersion 1 [getTLSVersion state];
    MustNewConstMetric tlsConnectSuccess 1 [] ].



(** A connection state without peer certificates that still lists
    verified chains. *)
Definition noPeerState : tls.ConnectionState :=
  tls.mkConnectionState tls.VersionTLS12 [] sevenChains.

(** ** Deduplication *)

Section Deduplication.

Implicit Types (c d : x509.Certificate) (r certs earlier : list x509.Certificate).

Lemma contains_IdentityKey r c :
  contains r c = true <-> exists d, In d r /\ IdentityKey d = IdentityKey c.
Proof.
  induction r as [|d r IH]; simpl.
  - split; [discriminate | intros (? & [] & _)].
  - destruct (String.eqb _ _) eqn:Es; simpl.
    + destruct (String.eqb (pkix.CommonName _) _) eqn:Ei.
      * apply String.eqb_eq in Es, Ei. split; [intros _ | reflexivity].
        exists d. split; [now left |]. unfold IdentityKey. congruence.
      * rewrite IH. apply String.eqb_neq in Ei.
        split; intros (d' & Hin & Hk).
        -- exists d'. auto.
        -- destruct Hin as [<- | Hin]; [| eauto].
           unfold IdentityKey in Hk. congruence.
    + rewrite IH. apply String.eqb_neq in Es.
      split; intros (d' & Hin & Hk).
      * exists d'. auto.
      * destruct Hin as [<- | Hin]; [| eauto].
        unfold IdentityKey in Hk. congruence.
Qed.

Lemma firstOccurrence_false earlier c :
  firstOccurrence earlier c = false <->
  exists d, In d earlier /\ IdentityKey d = IdentityKey c.
Proof.
  unfold firstOccurrence. induction earlier as [|d earlier IH]; simpl.
  - split; [discriminate | intros (? & [] & _)].
  - rewrite andb_false_iff, IH, negb_false_iff, bool_decide_eq_true.
    split.
    + intros [Hk | (d' & Hin & Hk)]; eauto.
    + intros (d' & [<- | Hin] & Hk); eauto.
Qed.

Lemma firstOccurrence_true earlier c :
  firstOccurrence earlier c = true <->
  forall d, In d earlier -> IdentityKey d <> IdentityKey c.
Proof.
  split.
  - intros Ht d Hin Hk.
    assert (firstOccurrence earlier c = false) as Hf
      by (apply firstOccurrence_false; eauto).
    congruence.
  - intros Hall. destruct (firstOccurrence earlier c) eqn:E; [reflexivity |].
    apply firstOccurrence_false in E as (d & Hin & Hk).
    now destruct (Hall d Hin).
Qed.

(** The loop of [uniq], started from any accumulator [r] that holds the
    same Identity Keys as the certificates already passed. *)
Lemma uniq_loop_keepFirst certs : forall earlier r,
  (forall c, contains r c = negb (firstOccurrence earlier c)) ->
  fold_left (fun r c => if negb (contains r c) then r ++ [c] else r) certs r
  = r ++ keepFirst earlier certs.
Proof.
  induction certs as [|c certs IH]; intros earlier r Hr; simpl.
  - now rewrite app_nil_r.
  - rewrite (Hr c), negb_involutive.
    destruct (firstOccurrence earlier c) eqn:Hc; simpl.
    + rewrite (IH (earlier ++ [c]) (r ++ [c])); [now rewrite <- app_assoc |].
      intros c'. apply eq_true_iff_eq.
      rewrite contains_IdentityKey, negb_true_iff, firstOccurrence_false.
      split; intros (d & Hin & Hk); apply in_app_or in Hin.
      * destruct Hin as [Hin | Hin].
        -- assert (contains r c' = true) as Hc'
             by (apply contains_IdentityKey; eauto).
           rewrite Hr, negb_true_iff, firstOccurrence_false in Hc'.
           destruct Hc' as (d' & ? & ?). exists d'. split; [|done].
           apply in_or_app. now left.
        -- exists d. split; [|done]. apply in_or_app. now right.
      * destruct Hin as [Hin | Hin].
        -- assert (contains r c' = true) as Hc'.
           { rewrite Hr, negb_true_iff, firstOccurrence_false. eauto. }
           apply contains_IdentityKey in Hc' as (d' & ? & ?).
           exists d'. split; [|done]. apply in_or_app. now left.
        -- exists d. split; [|done]. apply in_or_app. now right.
    + rewrite (IH (earlier ++ [c]) r); [reflexivity |].
      intros c'. apply eq_true_iff_eq.
      rewrite Hr, !negb_true_iff, !firstOccurrence_false.
      apply firstOccurrence_false in Hc as (d0 & Hin0 & Hk0).
      split; intros (d & Hin & Hk).
      * exists d. split; [|done]. apply in_or_app. now left.
      * apply in_app_or in Hin as [Hin | [<- | []]]; [eauto |].
        exists d0. split; [done | congruence].
Qed.

Lemma uniq_Deduplicate certs : uniq certs = Deduplicate certs.
Proof.
  unfold uniq, Deduplicate.
  now rewrite (uniq_loop_keepFirst certs [] []).
Qed.

Lemma keepFirst_In earlier certs c :
  In c (keepFirst earlier certs) ->
  In c certs /\ forall d, In d earlier -> IdentityKey d <> IdentityKey c.
Proof.
  revert earlier. induction certs as [|c0 certs IH]; intros earlier; simpl.
  - intros [].
  - intros Hin. apply in_app_or in Hin as [Hin | Hin].
    + destruct (firstOccurrence earlier c0) eqn:E; [| destruct Hin].
      destruct Hin as [<- | []]. split; [now left |].
      now apply firstOccurrence_true.
    + apply IH in Hin as [Hin Hk]. split; [now right |].
      intros d Hd. apply Hk, in_or_app. now left.
Qed.

Lemma keepFirst_NoDup earlier certs :
  NoDup (map IdentityKey (keepFirst earlier certs)).
Proof.
  revert earlier. induction certs as [|c certs IH]; intros earlier; simpl.
  - constructor.
  - destruct (firstOccurrence earlier c); simpl; [| apply IH].
    constructor; [| apply IH].
    rewrite list_elem_of_In, in_map_iff. intros (d & Hk & Hin).
    apply keepFirst_In in Hin as [_ Hne].
    apply (Hne c); [| done]. apply in_or_app. right. now left.
Qed.

Lemma keepFirst_sublist earlier certs :
  sublist (keepFirst earlier certs) certs.
Proof.
  revert earlier. induction certs as [|c certs IH]; intros earlier; simpl.
  - constructor.
  - destruct (firstOccurrence earlier c); simpl.
    + apply sublist_skip, IH.
    + apply sublist_cons, IH.
Qed.

Lemma keepFirst_covers earlier certs c :
  In c certs ->
  (exists d, In d earlier /\ IdentityKey d = IdentityKey c)
  \/ In (IdentityKey c) (map IdentityKey (keepFirst earlier certs)).
Proof.
  revert earlier. induction certs as [|c0 certs IH]; intros earlier; simpl.
  - intros [].
  - intros [-> | Hin].
    + destruct (firstOccurrence earlier c) eqn:E.
      * right. now left.
      * left. now apply firstOccurrence_false.
    + destruct (IH (earlier ++ [c0]) Hin) as [(d & Hd & Hk) | Hr].
      * apply in_app_or in Hd as [Hd | [-> | []]]; [left; eauto |].
        destruct (firstOccurrence earlier d) eqn:E.
        -- right. left. done.
        -- left. apply firstOccurrence_false in E as (d' & ? & ?).
           exists d'. split; [done | congruence].
      * right. rewrite map_app, in_app_iff. now right.
Qed.

(** A sequence with pairwise distinct Identity Keys, none of them among
    the certificates passed before, is kept whole. *)
Lemma keepFirst_id certs : forall earlier,
  NoDup (map IdentityKey certs) ->
  (forall c d, In c certs -> In d earlier -> IdentityKey d <> IdentityKey c) ->
  keepFirst earlier certs = certs.
Proof.
  induction certs as [|c certs IH]; intros earlier Hnd Hdis; simpl; [done |].
  simpl in Hnd. apply NoDup_cons in Hnd as [Hc Hnd].
  assert (firstOccurrence earlier c = true) as ->.
  { apply firstOccurrence_true. intros d Hd. apply Hdis; [now left | done]. }
  simpl. f_equal. apply IH; [done |].
  intros c' d Hc' Hd. apply in_app_or in Hd as [Hd | [<- | []]].
  - apply Hdis; [now right | done].
  - intros Hk. apply Hc. rewrite list_elem_of_In, in_map_iff. eauto.
Qed.

End Deduplication.

(** ** Label strings *)

Lemma append_nil_l (s : string) : "" +:+ s = s.
Proof. reflexivity. Qed.

Lemma append_cons (a : ascii) (s t : string) :
  String a s +:+ t = String a (s +:+ t).
Proof. reflexivity. Qed.

Lemma append_assoc (s1 s2 s3 : string) :
  (s1 +:+ s2) +:+ s3 = s1 +:+ (s2 +:+ s3).
Proof.
  induction s1 as [|a s1 IH]; [reflexivity |].
  now rewrite !append_cons, IH.
Qed.

Lemma append_nil_r (s : string) : s +:+ "" = s.
Proof.
  induction s as [|a s IH]; [reflexivity |].
  now rewrite append_cons, IH.
Qed.

Lemma nonempty_length {A} (x : A) (l : list A) :
  (0 <? Z.of_nat (length (x :: l))) = true.
Proof. apply Z.ltb_lt. simpl. lia. Qed.

Lemma nonempty_length_ge {A} (x : A) (l : list A) :
  (Z.of_nat (length (x :: l)) <? 1) = false.
Proof. apply Z.ltb_ge. simpl. lia. Qed.

Lemma getDNSNames_delimited cert :
  getDNSNames cert = delimited (x509.DNSNames cert).
Proof.
  unfold getDNSNames. destruct (x509.DNSNames cert); [done |].
  now rewrite nonempty_length.
Qed.

Lemma getEmailAddresses_delimited cert :
  getEmailAddresses cert = delimited (x509.EmailAddresses cert).
Proof.
  unfold getEmailAddresses. destruct (x509.EmailAddresses cert); [done |].
  now rewrite nonempty_length.
Qed.

Lemma getOrganizationalUnits_delimited cert :
  getOrganizationalUnits cert
  = delimited (pkix.OrganizationalUnit (x509.Subject cert)).
Proof.
  unfold getOrganizationalUnits.
  destruct (pkix.OrganizationalUnit (x509.Subject cert)); [done |].
  now rewrite nonempty_length.
Qed.

Section IPLabels.
Variable IP_String : net.IP -> string.

(** The loop of [getIPAddresses] appends each address and a comma. *)
Lemma getIPAddresses_loop (ips : list net.IP) : forall acc,
  fold_left (fun ips ip => (ips +:+ IP_String ip) +:+ ",") ips acc
  = acc +:+ match ips with
            | [] => ""
            | _ :: _ => Join (map IP_String ips) "," +:+ ","
            end.
Proof.
  induction ips as [|ip ips IH]; intros acc; simpl.
  - now rewrite append_nil_r.
  - rewrite IH, !append_assoc. do 2 f_equal.
    destruct ips as [|ip' ips]; simpl; [done |].
    now rewrite !append_assoc.
Qed.

Lemma getIPAddresses_delimited cert :
  getIPAddresses IP_String cert
  = delimited (map IP_String (x509.IPAddresses cert)).
Proof.
  unfold getIPAddresses. destruct (x509.IPAddresses cert) as [|ip ips]; [done |].
  rewrite nonempty_length, getIPAddresses_loop. reflexivity.
Qed.

End IPLabels.


(** ** The order of instants *)

Ltac time_order :=
  repeat match goal with t : time.Time |- _ => destruct t end;
  unfold time.After, time.Before, time.IsZero, time.zero in *; simpl in *;
  try lia.

Lemma Before_After (t u : time.Time) : time.Before t u = time.After u t.
Proof. time_order. Qed.

Lemma After_irrefl (t : time.Time) : time.After t t = false.
Proof. time_order. Qed.

Lemma After_trans (t u v : time.Time) :
  time.After t u = true -> time.After u v = true -> time.After t v = true.
Proof. time_order. Qed.

Lemma After_asym (t u : time.Time) :
  time.After t u = true -> time.After u t = false.
Proof. time_order. Qed.

Lemma not_After_trans (t u v : time.Time) :
  time.After t u = false -> time.After u v = false -> time.After t v = false.
Proof. time_order. Qed.

Lemma not_After_antisym (t u : time.Time) :
  time.After t u = false -> time.After u t = false -> t = u.
Proof.
  destruct t as [s n], u as [s' n'].
  unfold time.After; simpl. intros H1 H2.
  assert (s = s') by lia. assert (n = n') by lia. congruence.
Qed.

Lemma IsZero_zero (t : time.Time) : time.IsZero t = true <-> t = time.zero.
Proof.
  destruct t as [s n]. unfold time.IsZero, time.zero; simpl. split.
  - intros H. assert (s = 0) by lia. assert (n = 0) by lia. congruence.
  - intros [= -> ->]. reflexivity.
Qed.

(** ** Effective expiry *)

Lemma chainExpiry_loop (chain : list x509.Certificate) :
  forall passed acc,
  EffectiveExpiry passed acc ->
  EffectiveExpiry (passed ++ chain)
    (fold_left
       (fun iExpiry cert =>
          if (time.IsZero iExpiry || time.Before (x509.NotAfter cert) iExpiry)
             && negb (time.IsZero (x509.NotAfter cert))
          then x509.NotAfter cert
          else iExpiry)
       chain acc).
Proof.
  induction chain as [|c chain IH]; intros passed acc Hacc; simpl.
  - now rewrite app_nil_r.
  - replace (passed ++ c :: chain) with ((passed ++ [c]) ++ chain)
      by now rewrite <- app_assoc.
    apply IH. clear IH.
    destruct (time.IsZero (x509.NotAfter c)) eqn:Hc; simpl.
    + rewrite andb_false_r.
      destruct Hacc as [[Hall ->] | (Hnz & (d & Hd & Hdt) & Hmin)].
      * left. split; [| done]. apply Forall_app. split; [done |].
        now constructor.
      * right. split; [done |]. split.
        -- exists d. split; [apply in_or_app; now left | done].
        -- intros c' Hin Hnz'. apply in_app_or in Hin as [Hin | [<- | []]].
           ++ now apply Hmin.
           ++ congruence.
    + rewrite andb_true_r.
      destruct Hacc as [[Hall ->] | (Hnz & (d & Hd & Hdt) & Hmin)].
      * simpl. right. split; [done |]. split.
        -- exists c. split; [apply in_or_app; right; now left | done].
        -- intros c' Hin Hnz'. apply in_app_or in Hin as [Hin | [<- | []]].
           ++ rewrite List.Forall_forall in Hall. apply Hall in Hin. congruence.
           ++ rewrite Before_After. apply After_irrefl.
      * rewrite Hnz; simpl.
        destruct (time.Before (x509.NotAfter c) acc) eqn:Hlt.
        -- right. split; [done |]. split.
           ++ exists c. split; [apply in_or_app; right; now left | done].
           ++ intros c' Hin Hnz'.
              apply in_app_or in Hin as [Hin | [<- | []]].
              ** specialize (Hmin c' Hin Hnz').
                 rewrite Before_After in *.
                 apply not_After_trans with acc; [| done].
                 now apply After_asym.
              ** rewrite Before_After. apply After_irrefl.
        -- right. split; [done |]. split.
           ++ exists d. split; [apply in_or_app; now left | done].
           ++ intros c' Hin Hnz'.
              apply in_app_or in Hin as [Hin | [<- | []]]; [| done].
              now apply Hmin.
Qed.

Lemma chainExpiry_EffectiveExpiry (chain : list x509.Certificate) :
  EffectiveExpiry chain (chainExpiry chain).
Proof.
  apply (chainExpiry_loop chain [] time.zero).
  left. split; [constructor | done].
Qed.

(** The effective expiry of a chain is determined by the chain. *)
Lemma EffectiveExpiry_unique chain t u :
  EffectiveExpiry chain t -> EffectiveExpiry chain u -> t = u.
Proof.
  intros [[Ht ->] | (Htz & (c & Hc & <-) & Htmin)]
         [[Hu ->] | (Huz & (d & Hd & <-) & Humin)].
  - done.
  - rewrite List.Forall_forall in Ht. apply Ht in Hd. congruence.
  - rewrite List.Forall_forall in Hu. apply Hu in Hc. congruence.
  - specialize (Htmin d Hd Huz). specialize (Humin c Hc Htz).
    rewrite Before_After in *. now apply not_After_antisym.
Qed.

Lemma chainExpiry_unset (chain : list x509.Certificate) :
  Forall (fun c => time.IsZero (x509.NotAfter c) = true) chain ->
  chainExpiry chain = time.zero.
Proof.
  intros Hall. apply (EffectiveExpiry_unique chain).
  - apply chainExpiry_EffectiveExpiry.
  - left. done.
Qed.

(** ** Go's insertion sort meets the contract *)

Section GoSort.
Context {A : Type} (less : A -> A -> bool).
Local Open Scope nat_scope.

Lemma Swap_lookup (data : list A) (i j k : nat) :
  i < length data -> j < length data ->
  sort.Swap data i j !! k
  = data !! (if decide (k = i) then j else if decide (k = j) then i else k).
Proof.
  intros Hi Hj. unfold sort.Swap.
  destruct (lookup_lt_is_Some_2 data i Hi) as [x Hx].
  destruct (lookup_lt_is_Some_2 data j Hj) as [y Hy].
  rewrite Hx, Hy.
  destruct (decide (k = i)) as [-> | Hki].
  - rewrite list_lookup_insert_eq; [done | now rewrite length_insert].
  - rewrite list_lookup_insert_ne by done.
    destruct (decide (k = j)) as [-> | Hkj].
    + rewrite list_lookup_insert_eq; done.
    + rewrite list_lookup_insert_ne; done.
Qed.

Lemma Swap_length (data : list A) (i j : nat) :
  length (sort.Swap data i j) = length data.
Proof.
  unfold sort.Swap. destruct (data !! i), (data !! j); try done.
  now rewrite !length_insert.
Qed.

Lemma Swap_Permutation (data : list A) (i j : nat) :
  Permutation (sort.Swap data i j) data.
Proof.
  destruct (decide (i < length data)) as [Hi |];
    [destruct (decide (j < length data)) as [Hj |] |].
  - apply Permutation_inj. split; [apply Swap_length |].
    exists (fun k => if decide (k = i) then j
                     else if decide (k = j) then i else k).
    split; [| intros k; now apply Swap_lookup].
    intros k1 k2 Hk. repeat case_decide; lia.
  - unfold sort.Swap. rewrite (lookup_ge_None_2 data j) by lia.
    now destruct (data !! i).
  - unfold sort.Swap. now rewrite (lookup_ge_None_2 data i) by lia.
Qed.

Lemma shellPass_Permutation (n : nat) : forall (data : list A) (i : nat),
  Permutation (sort.shellPass less n data i) data.
Proof.
  induction n as [|n IH]; intros data i; simpl; [done |].
  rewrite IH. destruct (sort.Less less data i (i - 6)); [| done].
  apply Swap_Permutation.
Qed.

Lemma Less_adjacent (l1 : list A) (p x : A) (R : list A) :
  sort.Less less (l1 ++ p :: x :: R) (S (length l1)) (length l1) = less x p.
Proof.
  unfold sort.Less.
  rewrite (list_lookup_middle l1 (x :: R) p (length l1)) by done.
  replace (l1 ++ p :: x :: R) with ((l1 ++ [p]) ++ x :: R)
    by now rewrite <- app_assoc.
  rewrite (list_lookup_middle (l1 ++ [p]) R x); [done |].
  rewrite length_app; simpl; lia.
Qed.

Lemma Swap_adjacent (l1 : list A) (p x : A) (R : list A) :
  sort.Swap (l1 ++ p :: x :: R) (S (length l1)) (length l1)
  = l1 ++ x :: p :: R.
Proof.
  unfold sort.Swap.
  rewrite (list_lookup_middle l1 (x :: R) p (length l1)) by done.
  replace (l1 ++ p :: x :: R) with ((l1 ++ [p]) ++ x :: R) at 1
    by now rewrite <- app_assoc.
  rewrite (list_lookup_middle (l1 ++ [p]) R x)
    by (rewrite length_app; simpl; lia).
  replace (length l1) with (length l1 + 0) at 2 by lia.
  rewrite insert_app_r; simpl.
  replace (S (length l1)) with (length l1 + 1) by lia.
  now rewrite insert_app_r.
Qed.

Lemma insertionSort_inner_step (l1 : list A) (p x : A) (R : list A) :
  sort.insertionSort_inner less (l1 ++ p :: x :: R) 0 (S (length l1))
  = if less x p
    then sort.insertionSort_inner less (l1 ++ x :: p :: R) 0 (length l1)
    else l1 ++ p :: x :: R.
Proof. simpl. now rewrite Less_adjacent, Swap_adjacent. Qed.

Lemma insertionSort_inner_insertBelow (before : list A) :
  forall (x : A) (R : list A),
  sort.insertionSort_inner less (rev before ++ x :: R) 0 (length before)
  = rev (insertBelow less x before) ++ R.
Proof.
  induction before as [|p before IH]; intros x R; [done |].
  replace (length (p :: before)) with (S (length (rev before)))
    by (now rewrite length_rev).
  replace (rev (p :: before) ++ x :: R) with (rev before ++ p :: x :: R)
    by (simpl; now rewrite <- app_assoc).
  rewrite insertionSort_inner_step. simpl.
  destruct (less x p) eqn:Hlt; simpl.
  - rewrite length_rev, IH. now rewrite <- app_assoc.
  - now rewrite <- !app_assoc.
Qed.

Lemma insertBelow_length (x : A) (before : list A) :
  length (insertBelow less x before) = S (length before).
Proof.
  induction before as [|p before IH]; simpl; [done |].
  destruct (less x p); simpl; [now rewrite IH | done].
Qed.

Lemma insertionSort_outer_fold (R : list A) : forall (before : list A),
  sort.insertionSort_outer less (length R) (rev before ++ R) 0 (length before)
  = rev (fold_left (fun before x => insertBelow less x before) R before).
Proof.
  induction R as [|x R IH]; intros before; simpl.
  - now rewrite app_nil_r.
  - rewrite insertionSort_inner_insertBelow.
    rewrite <- (insertBelow_length x before). apply IH.
Qed.

Lemma insertionSort_func_fold (data : list A) :
  sort.insertionSort_func less data 0 (length data)
  = rev (fold_left (fun before x => insertBelow less x before) data []).
Proof.
  unfold sort.insertionSort_func. destruct data as [|x R]; [done |].
  simpl. rewrite Nat.sub_0_r.
  apply (insertionSort_outer_fold R [x]).
Qed.

Lemma insertBelow_Permutation (x : A) (before : list A) :
  Permutation (insertBelow less x before) (x :: before).
Proof.
  induction before as [|p before IH]; simpl; [done |].
  destruct (less x p); [| done].
  rewrite IH. apply perm_swap.
Qed.

Lemma insertBelow_fold_Permutation (R : list A) : forall before,
  Permutation (fold_left (fun before x => insertBelow less x before) R before)
              (before ++ R).
Proof.
  induction R as [|x R IH]; intros before; simpl.
  - now rewrite app_nil_r.
  - rewrite IH, insertBelow_Permutation. apply Permutation_middle.
Qed.

Section Asymmetric.
Hypothesis less_asym : forall x y, less x y = true -> less y x = false.

Lemma insertBelow_Sorted (x : A) (before : list A) :
  Sorted (fun a b => less a b = false) before ->
  Sorted (fun a b => less a b = false) (insertBelow less x before).
Proof.
  induction 1 as [|p before Hs IH Hhd]; simpl.
  - repeat constructor.
  - destruct (less x p) eqn:Hlt.
    + constructor; [done |].
      destruct Hhd as [|q rest Hpq]; simpl.
      * constructor. now apply less_asym.
      * destruct (less x q); constructor; [done | now apply less_asym].
    + constructor; [now constructor | now constructor].
Qed.

Lemma insertBelow_fold_Sorted (R : list A) : forall before,
  Sorted (fun a b => less a b = false) before ->
  Sorted (fun a b => less a b = false)
    (fold_left (fun before x => insertBelow less x before) R before).
Proof.
  induction R as [|x R IH]; intros before Hs; simpl; [done |].
  apply IH, insertBelow_Sorted, Hs.
Qed.

End Asymmetric.

Lemma Sorted_snoc (R : A -> A -> Prop) (l : list A) (x : A) :
  Sorted R l -> (forall y, last l = Some y -> R y x) -> Sorted R (l ++ [x]).
Proof.
  induction 1 as [|a l Hs IH Hhd]; intros Hlast; simpl.
  - repeat constructor.
  - constructor.
    + apply IH. intros y Hy. apply Hlast.
      destruct l; [done | exact Hy].
    + destruct Hhd as [|b l' Hab]; simpl; constructor; [| done].
      now apply Hlast.
Qed.

Lemma last_rev (l : list A) : last (rev l) = head l.
Proof.
  destruct l as [|a l]; [done |]. simpl. apply last_snoc.
Qed.

Lemma Sorted_rev (R : A -> A -> Prop) (l : list A) :
  Sorted R l -> Sorted (fun a b => R b a) (rev l).
Proof.
  induction 1 as [|a l Hs IH Hhd]; simpl; [constructor |].
  apply Sorted_snoc; [done |].
  intros y Hy. rewrite last_rev in Hy.
  destruct Hhd as [|b l' Hab]; [done |]. now injection Hy as <-.
Qed.

Lemma Slice_Permutation (data : list A) :
  Permutation data (sort.Slice less data).
Proof.
  unfold sort.Slice, sort.quickSort_func.
  destruct (1 <? length data - 0); [| done].
  set (data' := sort.shellPass less _ data _).
  assert (Permutation data' data) as Hp by apply shellPass_Permutation.
  rewrite <- (Permutation_length Hp), insertionSort_func_fold.
  rewrite <- Permutation_rev, insertBelow_fold_Permutation. simpl.
  now symmetry.
Qed.

Lemma Slice_SliceIsSorted (data : list A) :
  StrictWeakOrder less -> SliceIsSorted less (sort.Slice less data).
Proof.
  intros Hless.
  assert (forall x y, less x y = true -> less y x = false) as Hasym.
  { intros x y Hxy. destruct (less y x) eqn:Hyx; [| done].
    rewrite <- (less_irrefl less Hless x).
    symmetry. now apply (less_trans less Hless x y x). }
  unfold SliceIsSorted, sort.Slice, sort.quickSort_func.
  destruct (1 <? length data - 0) eqn:Hlen.
  - set (data' := sort.shellPass less _ data _).
    assert (Permutation data' data) as Hp by apply shellPass_Permutation.
    rewrite <- (Permutation_length Hp), insertionSort_func_fold.
    apply (Sorted_rev (fun a b => less a b = false)).
    apply insertBelow_fold_Sorted; [done | constructor].
  - apply Nat.ltb_ge in Hlen.
    destruct data as [|x [|y data]]; simpl in Hlen; [| | lia];
      repeat constructor.
Qed.

End GoSort.

(** ** Ranking under the contract of sort.Slice *)

Lemma StronglySorted_lookup {A : Type} (R : A -> A -> Prop) (l : list A) :
  StronglySorted R l ->
  forall (i j : nat) (x y : A),
    (i < j)%nat -> l !! i = Some x -> l !! j = Some y -> R x y.
Proof.
  induction 1 as [|a l Hs IH Hall]; intros i j x y Hij Hi Hj; [done |].
  destruct j as [|j]; [lia |]. simpl in Hj.
  destruct i as [|i]; simpl in Hi.
  - injection Hi as <-. rewrite List.Forall_forall in Hall.
    apply Hall. apply list_elem_of_In. now apply list_elem_of_lookup_2 in Hj.
  - apply (IH i j); [lia | done | done].
Qed.

Lemma chainLess_StrictWeakOrder : StrictWeakOrder chainLess.
Proof.
  unfold chainLess. split.
  - intros x. apply After_irrefl.
  - intros x y z. apply After_trans.
  - intros x y z Hxy Hyx Hyz Hzy. split.
    + now apply not_After_trans with (chainExpiry y).
    + now apply not_After_trans with (chainExpiry y).
Qed.

Lemma SliceIsSorted_chainLess (ranked : list (list x509.Certificate)) :
  SliceIsSorted chainLess ranked ->
  forall (i j : nat) (X Y : list x509.Certificate),
    (i < j)%nat -> ranked !! i = Some X -> ranked !! j = Some Y ->
    time.After (chainExpiry Y) (chainExpiry X) = false.
Proof.
  intros Hs. apply (StronglySorted_lookup (fun X Y => chainLess Y X = false)).
  apply Sorted_StronglySorted; [| exact Hs].
  intros X Y Z HXY HYZ. unfold chainLess in *.
  now apply not_After_trans with (chainExpiry Y).
Qed.

Lemma filter_Permutation {A : Type} (f : A -> bool) (l k : list A) :
  Permutation l k -> Permutation (List.filter f l) (List.filter f k).
Proof.
  induction 1 as [|x l k Hp IH|x y l|l k m H1 IH1 H2 IH2]; simpl.
  - done.
  - destruct (f x); [now constructor | done].
  - destruct (f x), (f y); try done. apply perm_swap.
  - now transitivity (List.filter f k).
Qed.

(** ** The exporter's properties *)

Section Properties.

Variable IP_String : net.IP -> string.
Variable sort_Slice : forall A : Type, (A -> A -> bool) -> list A -> list A.
Variable ParseFloat : string -> float + prober.error.
Variable Quote : string -> string.
Variable unrep : float -> Z.
Variable Probers : gmap string prober.ProbeFn.

(** [sort.Slice] rearranges the slice, and leaves it sorted when [less] is
    a strict weak ordering.  It promises no more: "The sort is not
    guaranteed to be stable". *)
Hypothesis sort_Slice_Permutation :
  forall (A : Type) (less : A -> A -> bool) (l : list A),
    Permutation l (sort_Slice A less l).
Hypothesis sort_Slice_Sorted :
  forall (A : Type) (less : A -> A -> bool) (l : list A),
    StrictWeakOrder less -> SliceIsSorted less (sort_Slice A less l).

Local Abbreviation CollectE := (Collect IP_String sort_Slice).
Local Abbreviation probeHandlerE :=
  (probeHandler IP_String sort_Slice ParseFloat Quote unrep Probers).
Local Abbreviation RankChains := (sort_Slice _ chainLess).

(** Every sample of a verified chain carries one value per label of its
    descriptor, the chain number first. *)
Lemma verifiedChainMetrics_schema (i : nat) (chain : list x509.Certificate)
  (m : Metric) :
  In m (verifiedChainMetrics IP_String i chain) ->
  (desc m = verifiedNotAfter \/ desc m = verifiedNotBefore)
  /\ variableLabels (desc m)
     = ["chain_no"; "serial_no"; "issuer_cn"; "cn"; "dnsnames"; "ips";
        "emails"; "ou"]
  /\ exists cert, In cert (uniq chain)
       /\ labelValues m = decimal (Z.of_nat i) :: certLabelValues IP_String cert.
Proof.
  unfold verifiedChainMetrics. rewrite in_flat_map.
  intros (cert & Hcert & Hm). unfold verifiedCertificateMetrics in Hm.
  apply in_app_or in Hm as [Hm | Hm].
  - destruct (negb _); [| destruct Hm]. destruct Hm as [<- | []]. simpl.
    split; [now left |]. split; [done |]. exists cert. done.
  - destruct (negb _); [| destruct Hm]. destruct Hm as [<- | []]. simpl.
    split; [now right |]. split; [done |]. exists cert. done.
Qed.

(** C6.  For every certificate sequence, [uniq] keeps exactly the first
    occurrence of each distinct Identity Key, the pair (serial number as
    decimal string, issuer common name), in the order of the input, and
    drops every later certificate whose Identity Key equals that of an
    earlier one; [contains] treats two certificates as duplicates exactly
    when their Identity Keys are equal. *)
Theorem uniq_keeps_first_occurrences (certs : list x509.Certificate) :
  uniq certs = Deduplicate certs
  /\ (forall r c, contains r c = true
                  <-> exists d, In d r /\ IdentityKey d = IdentityKey c)
  /\ NoDup (map IdentityKey (uniq certs))
  /\ sublist (uniq certs) certs
  /\ (forall c, In c certs ->
                In (IdentityKey c) (map IdentityKey (uniq certs))).
Proof.
  rewrite uniq_Deduplicate. unfold Deduplicate.
  split; [done |]. split; [apply contains_IdentityKey |].
  split; [apply keepFirst_NoDup |]. split; [apply keepFirst_sublist |].
  intros c Hc. destruct (keepFirst_covers [] certs c Hc) as [(d & [] & _) | H].
  exact H.
Qed.

(** C7.  Deduplication is idempotent: [uniq (uniq x) = uniq x] for every
    certificate sequence [x]. *)
Theorem uniq_idempotent (x : list x509.Certificate) :
  uniq (uniq x) = uniq x.
Proof.
  rewrite (uniq_Deduplicate (uniq x)), (uniq_Deduplicate x).
  apply keepFirst_id.
  - apply keepFirst_NoDup.
  - intros c d _ [].
Qed.

(** C8.  Each of the labels dnsnames, ips, emails and ou is the empty
    string for an empty name sequence and otherwise the names joined by a
    comma, with a comma before and after; the DNS names a.com and b.com
    give exactly [",a.com,b.com,"]. *)
Theorem name_labels_delimited (cert : x509.Certificate) :
  getDNSNames cert = delimited (x509.DNSNames cert)
  /\ getIPAddresses IP_String cert
     = delimited (map IP_String (x509.IPAddresses cert))
  /\ getEmailAddresses cert = delimited (x509.EmailAddresses cert)
  /\ getOrganizationalUnits cert
     = delimited (pkix.OrganizationalUnit (x509.Subject cert))
  /\ (x509.DNSNames cert = ["a.com"; "b.com"] ->
      getDNSNames cert = ",a.com,b.com,").
Proof.
  split; [apply getDNSNames_delimited |].
  split; [apply getIPAddresses_delimited |].
  split; [apply getEmailAddresses_delimited |].
  split; [apply getOrganizationalUnits_delimited |].
  intros Hdns. now rewrite getDNSNames_delimited, Hdns.
Qed.

(** C5, as amended.  For every input sequence of chains and every
    permutation of it, the ranked output holds the same chains; a chain
    whose effective expiry (the minimum non-zero not-after among its
    certificates, the zero instant when there is none) is strictly later
    comes before a chain with an earlier one; and a chain in which no
    certificate has a non-zero not-after comes after every chain whose
    effective expiry is later than the zero instant. *)
Theorem RankChains_descending (chains permuted : list (list x509.Certificate)) :
  Permutation chains permuted ->
  Permutation chains (RankChains permuted)
  /\ (forall chain, EffectiveExpiry chain (chainExpiry chain))
  /\ (forall (i j : nat) (X Y : list x509.Certificate),
        RankChains permuted !! i = Some X ->
        RankChains permuted !! j = Some Y ->
        time.After (chainExpiry X) (chainExpiry Y) = true ->
        (i < j)%nat)
  /\ (forall (i j : nat) (X Y : list x509.Certificate),
        RankChains permuted !! i = Some X ->
        RankChains permuted !! j = Some Y ->
        Forall (fun c => time.IsZero (x509.NotAfter c) = true) Y ->
        time.After (chainExpiry X) time.zero = true ->
        (i < j)%nat).
Proof.
  intros Hperm.
  assert (forall (i j : nat) X Y,
            RankChains permuted !! i = Some X ->
            RankChains permuted !! j = Some Y ->
            time.After (chainExpiry X) (chainExpiry Y) = true ->
            (i < j)%nat) as Horder.
  { intros i j X Y Hi Hj Hlater.
    destruct (decide (i < j)%nat) as [| Hge]; [done | exfalso].
    destruct (decide (i = j)) as [-> | Hne].
    - rewrite Hi in Hj. injection Hj as <-.
      now rewrite After_irrefl in Hlater.
    - assert (time.After (chainExpiry X) (chainExpiry Y) = false) as Hnot.
      { apply (SliceIsSorted_chainLess (RankChains permuted)) with j i;
          [| lia | done | done].
        apply sort_Slice_Sorted, chainLess_StrictWeakOrder. }
      congruence. }
  split; [| split; [| split]].
  - now rewrite Hperm, <- sort_Slice_Permutation.
  - apply chainExpiry_EffectiveExpiry.
  - exact Horder.
  - intros i j X Y Hi Hj Hunset Hlater.
    apply (Horder i j X Y Hi Hj). now rewrite (chainExpiry_unset Y Hunset).
Qed.

(** C2, as amended.  Ranking keeps the chains of every effective expiry,
    possibly in another relative order: for every instant, the chains that
    expire at it are the same in the ranked output as in the input up to
    their order, and in the output they stand next to each other. *)
Theorem RankChains_ties (chains : list (list x509.Certificate)) :
  (forall t : time.Time,
     Permutation
       (List.filter (fun chain => bool_decide (chainExpiry chain = t)) chains)
       (List.filter (fun chain => bool_decide (chainExpiry chain = t))
          (RankChains chains)))
  /\ (forall (i j k : nat) (X Y Z : list x509.Certificate),
        (i < j)%nat -> (j < k)%nat ->
        RankChains chains !! i = Some X ->
        RankChains chains !! j = Some Y ->
        RankChains chains !! k = Some Z ->
        chainExpiry X = chainExpiry Z ->
        chainExpiry Y = chainExpiry X).
Proof.
  split.
  - intros t. apply filter_Permutation, sort_Slice_Permutation.
  - intros i j k X Y Z Hij Hjk Hi Hj Hk Htie.
    assert (SliceIsSorted chainLess (RankChains chains)) as Hs
      by apply sort_Slice_Sorted, chainLess_StrictWeakOrder.
    pose proof (SliceIsSorted_chainLess _ Hs i j X Y Hij Hi Hj) as HYX.
    pose proof (SliceIsSorted_chainLess _ Hs j k Y Z Hjk Hj Hk) as HZY.
    rewrite <- Htie in HZY. now apply not_After_antisym.
Qed.


(** C3, as amended.  When the probe succeeds but the peer certificate
    chain is empty, the metrics sent are exactly ssl_prober = 1,
    ssl_tls_version_info = 1 (labelled with the negotiated version) and
    ssl_tls_connect_success = 0, in this order; none of them is a
    cert_not_after or cert_not_before sample. *)
Theorem Collect_no_peer_certificates (e : Exporter)
  (state : tls.ConnectionState) :
  prober_ e (target e) (module e) (timeout e) = inl state ->
  tls.PeerCertificates state = [] ->
  fst (CollectE e)
  = [ MustNewConstMetric proberType 1 [config.Prober (module e)];
      MustNewConstMetric tlsVersion 1 [getTLSVersion state];
      MustNewConstMetric tlsConnectSuccess 0 [] ]
  /\ map sampleOf (fst (CollectE e))
     = [ ("ssl_prober", 1); ("ssl_tls_version_info", 1);
         ("ssl_tls_connect_success", 0) ]
  /\ Forall (fun m => desc m <> notAfter /\ desc m <> notBefore)
       (fst (CollectE e)).
Proof.
  intros Hprobe Hpeer. unfold Collect. rewrite Hprobe, Hpeer. simpl.
  split; [done |]. split; [done |].
  repeat constructor; discriminate.
Qed.

(** C4, as amended.  Every request error is answered with an HTTP error
    status and a human-readable message, and [Collect] is not run for it:
    an unknown module, a missing target and an unknown prober give 400;
    a scrape timeout header that does not parse gives 500 (when the module
    is known, which is checked first). *)
Theorem probeHandler_request_errors (r : http.Request) (conf : config.Config) :
  RequestError ParseFloat Probers conf r ->
  exists msg code,
    probeHandlerE r conf = Error msg code
    /\ humanReadable msg
    /\ (UnknownModule conf r -> code = http.StatusBadRequest)
    /\ (~ UnknownModule conf r -> MalformedTimeout ParseFloat r ->
        code = http.StatusInternalServerError)
    /\ (~ UnknownModule conf r -> ~ MalformedTimeout ParseFloat r ->
        code = http.StatusBadRequest).
Proof.
  intros Herr. unfold probeHandler. cbv zeta.
  fold (moduleNameOf r). fold (timeoutHeader r).
  unfold RequestError, UnknownModule, MalformedTimeout, MissingTarget,
    UnknownProber in *.
  destruct (config.Modules conf !! moduleNameOf r) as [module |] eqn:Hmod.
  - destruct (String.eqb_spec (timeoutHeader r) "") as [Hv | Hv]; simpl.
    + destruct (String.eqb_spec (http.Get (http.Query r) "target") "")
        as [Ht | Ht].
      * eexists _, _. split; [reflexivity |].
        split; [now right; right; left |].
        split; [done |]. split; [| done]. intros _ [Hne _]. done.
      * destruct (Probers !! config.Prober module) eqn:Hp.
        -- exfalso. destruct Herr as [? | [[? _] | [? | (m & Hm & Hpm)]]];
             try done. injection Hm as <-. congruence.
        -- eexists _, _. split; [reflexivity |].
           split; [right; right; right; now eexists |].
           split; [done |]. split; [| done]. intros _ [Hne _]. done.
    + destruct (ParseFloat (timeoutHeader r)) as [v | err] eqn:Hparse.
      * destruct (String.eqb_spec (http.Get (http.Query r) "target") "")
          as [Ht | Ht].
        -- eexists _, _. split; [reflexivity |].
           split; [now right; right; left |].
           split; [done |]. split; [| done]. intros _ [_ [err Herr']]. done.
        -- destruct (Probers !! config.Prober module) eqn:Hp.
           ++ exfalso.
              destruct Herr as [? | [[_ [err ?]] | [? | (m & Hm & Hpm)]]];
                try done. injection Hm as <-. congruence.
           ++ eexists _, _. split; [reflexivity |].
              split; [right; right; right; now eexists |].
              split; [done |]. split; [| done].
              intros _ [_ [err Herr']]. done.
      * eexists _, _. split; [reflexivity |].
        split; [right; left; now eexists |].
        split; [done |]. split; [done |].
        intros _ Hnot. destruct Hnot. eauto.
  - eexists _, _. split; [reflexivity |].
    split; [left; now eexists |]. done.
Qed.



End Properties.

(** ** Worked examples *)

(** C1.  The descriptor sent for the not-after of a certificate in a
    verified chain is named ssl_verfied_cert_not_after: probing an endpoint
    with one verified chain yields samples under that name and none under
    ssl_verified_cert_not_after, while the not-before descriptor is named
    ssl_verified_cert_not_before. *)
Theorem verifiedNotAfter_name :
  fqName verifiedNotAfter = "ssl_verfied_cert_not_after"
  /\ fqName verifiedNotBefore = "ssl_verified_cert_not_before"
  /\ In "ssl_verfied_cert_not_after"
       (map (fun m => fqName (desc m))
          (fst (Collect_go (exporterOf (proberReturning goodState)))))
  /\ ~ In "ssl_verified_cert_not_after"
       (map (fun m => fqName (desc m))
          (fst (Collect_go (exporterOf (proberReturning goodState))))).
Proof.
  split; [reflexivity |]. split; [reflexivity |].
  rewrite <- !list_elem_of_In. split.
  - apply (bool_decide_eq_true_1 _). vm_compute. reflexivity.
  - apply (bool_decide_eq_false_1 _). vm_compute. reflexivity.
Qed.

(** Go's sort for short slices meets the contract of [sort.Slice], and on
    seven chains of which the first and the fourth expire together it moves
    the fourth before the first. *)
Lemma sevenChains_ties_reordered :
  (forall (A : Type) (less : A -> A -> bool) (l : list A),
     Permutation l (sort.Slice less l))
  /\ (forall (A : Type) (less : A -> A -> bool) (l : list A),
        StrictWeakOrder less -> SliceIsSorted less (sort.Slice less l))
  /\ sort.Slice chainLess sevenChains
     = [ [certExpiring 6 1735689600]; [certExpiring 3 1704067200];
         [certExpiring 0 1704067200]; [certExpiring 1 1700000000];
         [certExpiring 2 1690000000]; [certExpiring 4 1680000000];
         [certExpiring 5 1670000000] ]
  /\ ~ tiesKeepOrder sevenChains (sort.Slice chainLess sevenChains).
Proof.
  split; [intros A less l; apply Slice_Permutation |].
  split; [intros A less l; apply Slice_SliceIsSorted |].
  split; [vm_compute; reflexivity |].
  intros Hstable. specialize (Hstable (unixTime 1704067200)).
  vm_compute in Hstable. discriminate Hstable.
Qed.

Lemma RankChains_ties_witness :
  (forall t : time.Time,
     Permutation
       (List.filter (fun chain => bool_decide (chainExpiry chain = t))
          sevenChains)
       (List.filter (fun chain => bool_decide (chainExpiry chain = t))
          (sort.Slice chainLess sevenChains)))
  /\ (forall (i j k : nat) (X Y Z : list x509.Certificate),
        (i < j)%nat -> (j < k)%nat ->
        sort.Slice chainLess sevenChains !! i = Some X ->
        sort.Slice chainLess sevenChains !! j = Some Y ->
        sort.Slice chainLess sevenChains !! k = Some Z ->
        chainExpiry X = chainExpiry Z ->
        chainExpiry Y = chainExpiry X).
Proof.
  exact (RankChains_ties (@sort.Slice)
           (@Slice_Permutation) (@Slice_SliceIsSorted) sevenChains).
Defined.

(** A chain whose only expiry lies before year 1 is ranked after a chain
    with no expiry at all. *)
Lemma unset_expiry_ranked_first :
  sort.Slice chainLess [[ancientCert]; [undatedCert]]
  = [[undatedCert]; [ancientCert]]
  /\ Forall (fun c => time.IsZero (x509.NotAfter c) = true) [undatedCert]
  /\ time.IsZero (chainExpiry [ancientCert]) = false.
Proof.
  split; [vm_compute; reflexivity |].
  split; [repeat constructor | reflexivity].
Qed.

Lemma RankChains_descending_witness :
  Permutation sevenChains (sort.Slice chainLess (rev sevenChains))
  /\ (forall chain, EffectiveExpiry chain (chainExpiry chain))
  /\ (forall (i j : nat) (X Y : list x509.Certificate),
        sort.Slice chainLess (rev sevenChains) !! i = Some X ->
        sort.Slice chainLess (rev sevenChains) !! j = Some Y ->
        time.After (chainExpiry X) (chainExpiry Y) = true ->
        (i < j)%nat)
  /\ (forall (i j : nat) (X Y : list x509.Certificate),
        sort.Slice chainLess (rev sevenChains) !! i = Some X ->
        sort.Slice chainLess (rev sevenChains) !! j = Some Y ->
        Forall (fun c => time.IsZero (x509.NotAfter c) = true) Y ->
        time.After (chainExpiry X) time.zero = true ->
        (i < j)%nat).
Proof.
  exact (RankChains_descending (@sort.Slice)
           (@Slice_Permutation) (@Slice_SliceIsSorted)
           sevenChains (rev sevenChains) (Permutation_rev sevenChains)).
Defined.


(** A handshake that presented no certificate yields three samples, the
    negotiated version among them. *)
Lemma emptyState_three_samples :
  tls.PeerCertificates emptyState = []
  /\ map sampleOf (fst (Collect_go (exporterOf (proberReturning emptyState))))
     = [ ("ssl_prober", 1); ("ssl_tls_version_info", 1);
         ("ssl_tls_connect_success", 0) ]
  /\ map sampleOf (fst (Collect_go (exporterOf (proberReturning emptyState))))
     <> [ ("ssl_prober", 1); ("ssl_tls_connect_success", 0) ].
Proof.
  split; [reflexivity |]. split; [reflexivity |]. discriminate.
Qed.

Lemma Collect_no_peer_certificates_witness :
  fst (Collect_go (exporterOf (proberReturning emptyState)))
  = [ MustNewConstMetric proberType 1 ["tcp"];
      MustNewConstMetric tlsVersion 1 ["TLS 1.2"];
      MustNewConstMetric tlsConnectSuccess 0 [] ]
  /\ map sampleOf (fst (Collect_go (exporterOf (proberReturning emptyState))))
     = [ ("ssl_prober", 1); ("ssl_tls_version_info", 1);
         ("ssl_tls_connect_success", 0) ]
  /\ Forall (fun m => desc m <> notAfter /\ desc m <> notBefore)
       (fst (Collect_go (exporterOf (proberReturning emptyState)))).
Proof.
  apply (Collect_no_peer_certificates IP_String_dotted (@sort.Slice)
           (exporterOf (proberReturning emptyState)) emptyState).
  - reflexivity.
  - reflexivity.
Defined.

(** A scrape timeout header that is no number is answered with status 500,
    which is no 4xx status. *)
Lemma malformed_timeout_is_500 :
  ParseFloat_integers "abc" = inr (syntaxError "abc")
  /\ probeHandler_go (requestWithTimeout "abc") defaultConfig
     = Error
         ("Failed to parse timeout from Prometheus header: "
          +:+ syntaxError "abc")
         http.StatusInternalServerError
  /\ ~ (400 <= http.StatusInternalServerError < 500).
Proof.
  split; [reflexivity |]. split; [vm_compute; reflexivity |].
  unfold http.StatusInternalServerError. lia.
Qed.

Lemma requestWithTimeout_header (v : string) :
  timeoutHeader (requestWithTimeout v) = v.
Proof.
  unfold timeoutHeader, requestWithTimeout, http.Get. cbn [http.Header].
  now rewrite lookup_singleton_eq.
Qed.


Lemma probeHandler_request_errors_witness :
  exists msg code,
    probeHandler_go (requestWithTimeout "abc") defaultConfig = Error msg code
    /\ humanReadable msg
    /\ (UnknownModule defaultConfig (requestWithTimeout "abc") ->
        code = http.StatusBadRequest)
    /\ (~ UnknownModule defaultConfig (requestWithTimeout "abc") ->
        MalformedTimeout ParseFloat_integers (requestWithTimeout "abc") ->
        code = http.StatusInternalServerError)
    /\ (~ UnknownModule defaultConfig (requestWithTimeout "abc") ->
        ~ MalformedTimeout ParseFloat_integers (requestWithTimeout "abc") ->
        code = http.StatusBadRequest).
Proof.
  apply (probeHandler_request_errors IP_String_dotted (@sort.Slice)
           ParseFloat_integers Quote_plain unrep_amd64 someProbers
           (requestWithTimeout "abc") defaultConfig).
  right. left. unfold MalformedTimeout.
  rewrite requestWithTimeout_header.
  split; [discriminate | exists (syntaxError "abc"); reflexivity].
Defined.


Section Coverage.

Variable IP_String : net.IP -> string.
Variable sort_Slice : forall A : Type, (A -> A -> bool) -> list A -> list A.
Variable ParseFloat : string -> float + prober.error.
Variable Quote : string -> string.
Variable unrep : float -> Z.
Variable Probers : gmap string prober.ProbeFn.

Local Abbreviation CollectE := (Collect IP_String sort_Slice).
Local Abbreviation probeHandlerE :=
  (probeHandler IP_String sort_Slice ParseFloat Quote unrep Probers).
Local Abbreviation RankChains := (sort_Slice _ chainLess).
Local Abbreviation peerMetrics := (peerCertificateMetrics IP_String).
Local Abbreviation chainMetrics := (verifiedChainMetrics IP_String).

Lemma Collect_success (e : Exporter) (state : tls.ConnectionState) :
  prober_ e (target e) (module e) (timeout e) = inl state ->
  tls.PeerCertificates state <> [] ->
  CollectE e
  = (preamble e state
       ++ flat_map peerMetrics (uniq (tls.PeerCertificates state))
       ++ concat (imap chainMetrics (RankChains (tls.VerifiedChains state))),
     Some (tls.mkConnectionState (tls.Version state)
             (tls.PeerCertificates state)
             (RankChains (tls.VerifiedChains state)))).
Proof.
  intros Hprobe Hpeer. unfold Collect. rewrite Hprobe.
  destruct (tls.PeerCertificates state) as [|c certs] eqn:Hcerts; [done |].
  rewrite nonempty_length_ge. unfold preamble.
  now rewrite <- !app_assoc.
Qed.

(** X1.  When the prober returns an error, [Collect] sends exactly
    ssl_prober = 1, labelled with the module's prober, and
    ssl_tls_connect_success = 0, and there is no connection state. *)
Theorem Collect_probe_failure (e : Exporter) (err : prober.error) :
  prober_ e (target e) (module e) (timeout e) = inr err ->
  CollectE e
  = ([ MustNewConstMetric proberType 1 [config.Prober (module e)];
       MustNewConstMetric tlsConnectSuccess 0 [] ], None)
  /\ map sampleOf (fst (CollectE e))
     = [ ("ssl_prober", 1); ("ssl_tls_connect_success", 0) ].
Proof.
  intros Hprobe. unfold Collect. rewrite Hprobe. done.
Qed.

(** *** Sorting the metrics sent by descriptor *)

Lemma samplesOf_app (d : Desc) (ch1 ch2 : list Metric) :
  samplesOf d (ch1 ++ ch2) = samplesOf d ch1 ++ samplesOf d ch2.
Proof. apply List.filter_app. Qed.

Lemma samplesOf_none (d : Desc) (ch : list Metric) :
  (forall m, In m ch -> desc m <> d) -> samplesOf d ch = [].
Proof.
  induction ch as [|m ch IH]; intros Hne; simpl; [done |].
  rewrite bool_decide_eq_false_2 by (apply Hne; now left).
  apply IH. intros m' Hm'. apply Hne. now right.
Qed.




Lemma In_concat_imap {A B : Type} (f : nat -> A -> list B) (l : list A)
  (y : B) :
  In y (concat (imap f l))
  <-> exists (i : nat) (x : A), l !! i = Some x /\ In y (f i x).
Proof.
  rewrite in_concat. split.
  - intros (ys & Hys & Hy).
    apply list_elem_of_In, elem_of_lookup_imap in Hys as (i & x & -> & Hx).
    eauto.
  - intros (i & x & Hx & Hy). exists (f i x). split; [| done].
    apply list_elem_of_In, elem_of_lookup_imap. eauto.
Qed.

Lemma desc_peerCertificateMetrics (cert : x509.Certificate) (m : Metric) :
  In m (peerMetrics cert) ->
  (desc m = notAfter \/ desc m = notBefore)
  /\ labelValues m = certLabelValues IP_String cert.
Proof.
  unfold peerCertificateMetrics. intros Hm.
  apply in_app_or in Hm as [Hm | Hm];
    (destruct (negb _); [| destruct Hm]); destruct Hm as [<- | []]; simpl;
    auto.
Qed.

Lemma desc_verifiedChainMetrics (i : nat) (chain : list x509.Certificate)
  (m : Metric) :
  In m (chainMetrics i chain) ->
  (desc m = verifiedNotAfter \/ desc m = verifiedNotBefore)
  /\ exists cert, In cert (uniq chain)
       /\ labelValues m = decimal (Z.of_nat i) :: certLabelValues IP_String cert.
Proof.
  unfold verifiedChainMetrics. rewrite in_flat_map.
  intros (cert & Hcert & Hm). unfold verifiedCertificateMetrics in Hm.
  apply in_app_or in Hm as [Hm | Hm];
    (destruct (negb _); [| destruct Hm]); destruct Hm as [<- | []]; simpl;
    eauto.
Qed.

(** X2.  Whatever the prober returns, [Collect] sends ssl_prober = 1
    first and only once, sends exactly one ssl_tls_connect_success sample,
    whose value is 1 when the prober returned a state with a peer
    certificate and 0 otherwise, and sends ssl_tls_version_info once when
    the prober returned a state and not at all when it returned an error. *)
Theorem Collect_status_samples (e : Exporter) :
  head (fst (CollectE e))
  = Some (MustNewConstMetric proberType 1 [config.Prober (module e)])
  /\ samplesOf proberType (fst (CollectE e))
     = [MustNewConstMetric proberType 1 [config.Prober (module e)]]
  /\ samplesOf tlsConnectSuccess (fst (CollectE e))
     = [MustNewConstMetric tlsConnectSuccess
          match prober_ e (target e) (module e) (timeout e) with
          | inl state =>
              match tls.PeerCertificates state with [] => 0 | _ :: _ => 1 end
          | inr _ => 0
          end []]
  /\ samplesOf tlsVersion (fst (CollectE e))
     = match prober_ e (target e) (module e) (timeout e) with
       | inl state => [MustNewConstMetric tlsVersion 1 [getTLSVersion state]]
       | inr _ => []
       end.
Proof.
  destruct (prober_ e (target e) (module e) (timeout e))
    as [state | err] eqn:Hprobe.
  - destruct (tls.PeerCertificates state) as [|c certs] eqn:Hcerts.
    + unfold Collect. rewrite Hprobe, Hcerts. simpl. done.
    + rewrite (Collect_success e state Hprobe) by (rewrite Hcerts; done).
      cbn [fst]. rewrite Hcerts.
      assert (forall d, d <> notAfter -> d <> notBefore ->
                d <> verifiedNotAfter -> d <> verifiedNotBefore ->
                samplesOf d
                  (flat_map peerMetrics (uniq (c :: certs))
                   ++ concat (imap chainMetrics
                                (RankChains (tls.VerifiedChains state))))
                = []) as Hrest.
      { intros d H1 H2 H3 H4. apply samplesOf_none. intros m Hm.
        apply in_app_or in Hm as [Hm | Hm].
        - apply in_flat_map in Hm as (cert & _ & Hm).
          apply desc_peerCertificateMetrics in Hm as [[-> | ->] _]; done.
        - apply In_concat_imap in Hm as (i & chain & _ & Hm).
          apply desc_verifiedChainMetrics in Hm as [[-> | ->] _]; done. }
      split; [done |].
      rewrite !(samplesOf_app _ (preamble e state)), !Hrest by discriminate. done.
  - unfold Collect. rewrite Hprobe. simpl. done.
Qed.

(** X3.  Every metric [Collect] sends uses one of the seven descriptors
    [Describe] sends and carries exactly one value per label of that
    descriptor; the seven descriptors have pairwise distinct names. *)
Theorem Collect_consistent_with_Describe (e : Exporter) :
  (forall m, In m (fst (CollectE e)) ->
     In (desc m) (Describe e)
     /\ length (labelValues m) = length (variableLabels (desc m)))
  /\ NoDup (map fqName (Describe e)).
Proof.
  split.
  - intros m Hm.
    destruct (prober_ e (target e) (module e) (timeout e))
      as [state | err] eqn:Hprobe.
    + destruct (tls.PeerCertificates state) as [|c certs] eqn:Hcerts.
      * unfold Collect in Hm. rewrite Hprobe, Hcerts in Hm. simpl in Hm.
        destruct Hm as [<- | [<- | [<- | []]]]; simpl; auto 10.
      * rewrite (Collect_success e state Hprobe) in Hm
          by (rewrite Hcerts; done).
        cbn [fst] in Hm. apply in_app_or in Hm as [Hm | Hm].
        { destruct Hm as [<- | [<- | [<- | []]]]; simpl; auto 10. }
        apply in_app_or in Hm as [Hm | Hm].
        { apply in_flat_map in Hm as (cert & _ & Hm).
          apply desc_peerCertificateMetrics in Hm as [[-> | ->] ->];
            simpl; auto 10. }
        apply In_concat_imap in Hm as (i & chain & _ & Hm).
        apply desc_verifiedChainMetrics in Hm
          as [[-> | ->] (cert & _ & ->)]; simpl; auto 10.
    + unfold Collect in Hm. rewrite Hprobe in Hm. simpl in Hm.
      destruct Hm as [<- | [<- | []]]; simpl; auto 10.
  - apply (bool_decide_eq_true_1 _). vm_compute. reflexivity.
Qed.






(** *** No two samples alike *)

Ltac distinct_samples :=
  repeat (apply NoDup_cons_2;
          [rewrite list_elem_of_In; simpl; intuition discriminate |]);
  apply NoDup_nil_2.

Lemma decimal_inj (z z' : Z) : decimal z = decimal z' -> z = z'.
Proof.
  unfold decimal. intros Heq. apply DecimalZ.to_int_inj.
  assert (forall n, Z.to_int n <> Decimal.Pos Decimal.Nil
                    /\ Z.to_int n <> Decimal.Neg Decimal.Nil) as Hnonnil.
  { intros [|p|p]; simpl; split; try discriminate;
      intros [= H]; now apply DecimalPos.Unsigned.to_uint_nonnil in H. }
  apply (f_equal NilZero.int_of_string) in Heq.
  rewrite !NilZero.isi in Heq by apply Hnonnil.
  now injection Heq.
Qed.

Lemma certLabelValues_IdentityKey (c c' : x509.Certificate) :
  certLabelValues IP_String c = certLabelValues IP_String c' ->
  IdentityKey c = IdentityKey c'.
Proof. unfold certLabelValues, IdentityKey. intros [= -> -> _]. done. Qed.

Lemma NoDup_identity_flat_map (f : x509.Certificate -> list Metric)
  (certs : list x509.Certificate) :
  (forall c, NoDup (map identity (f c))) ->
  (forall c c' m m', In m (f c) -> In m' (f c') ->
     identity m = identity m' -> IdentityKey c = IdentityKey c') ->
  NoDup (map IdentityKey certs) ->
  NoDup (map identity (flat_map f certs)).
Proof.
  intros Hone Hkey. induction certs as [|c certs IH]; simpl; intros Hnd.
  - constructor.
  - apply NoDup_cons in Hnd as [Hc Hnd].
    rewrite map_app. apply NoDup_app. split; [apply Hone |].
    split; [| now apply IH].
    intros x Hx Hx'. apply list_elem_of_In, in_map_iff in Hx as (m & <- & Hm).
    apply list_elem_of_In, in_map_iff in Hx' as (m' & Heq & Hm').
    apply in_flat_map in Hm' as (c' & Hc' & Hm').
    apply Hc. rewrite (Hkey c c' m m' Hm Hm') by done.
    apply list_elem_of_In, in_map. exact Hc'.
Qed.

Lemma NoDup_identity_peerCertificateMetrics (certs : list x509.Certificate) :
  NoDup (map IdentityKey certs) ->
  NoDup (map identity (flat_map peerMetrics certs)).
Proof.
  apply NoDup_identity_flat_map.
  - intros c. unfold peerCertificateMetrics.
    destruct (negb (time.IsZero (x509.NotAfter c)));
      destruct (negb (time.IsZero (x509.NotBefore c))); simpl;
      distinct_samples.
  - intros c c' m m' Hm Hm' [= _ Hl].
    apply desc_peerCertificateMetrics in Hm as [_ Hm].
    apply desc_peerCertificateMetrics in Hm' as [_ Hm'].
    apply certLabelValues_IdentityKey. congruence.
Qed.

Lemma NoDup_identity_verifiedChainMetrics (i : nat)
  (chain : list x509.Certificate) :
  NoDup (map identity (chainMetrics i chain)).
Proof.
  unfold verifiedChainMetrics. apply NoDup_identity_flat_map.
  - intros c. unfold verifiedCertificateMetrics.
    destruct (negb (time.IsZero (x509.NotAfter c)));
      destruct (negb (time.IsZero (x509.NotBefore c))); simpl;
      distinct_samples.
  - intros c c' m m' Hm Hm' [= _ Hl].
    unfold verifiedCertificateMetrics in Hm, Hm'.
    apply certLabelValues_IdentityKey.
    apply in_app_or in Hm as [Hm | Hm];
      (destruct (negb _); [| destruct Hm]); destruct Hm as [<- | []];
      apply in_app_or in Hm' as [Hm' | Hm'];
      (destruct (negb _); [| destruct Hm']); destruct Hm' as [<- | []];
      simpl in Hl; congruence.
  - rewrite uniq_Deduplicate. apply keepFirst_NoDup.
Qed.

Lemma NoDup_identity_chains (chains : list (list x509.Certificate)) :
  forall k : nat,
  NoDup (map identity
           (concat (imap (fun i => chainMetrics (k + i)) chains))).
Proof.
  induction chains as [|chain chains IH]; intros k; simpl; [constructor |].
  rewrite map_app. apply NoDup_app.
  split; [apply NoDup_identity_verifiedChainMetrics |]. split.
  - intros x Hx Hx'. apply list_elem_of_In, in_map_iff in Hx as (m & <- & Hm).
    apply list_elem_of_In, in_map_iff in Hx' as (m' & Heq & Hm').
    apply In_concat_imap in Hm' as (i & chain' & _ & Hm').
    apply desc_verifiedChainMetrics in Hm as [_ (c & _ & Hl)].
    apply desc_verifiedChainMetrics in Hm' as [_ (c' & _ & Hl')].
    injection Heq as _ Heq. rewrite Hl, Hl' in Heq.
    injection Heq as Heq _. apply decimal_inj in Heq. simpl in Heq. lia.
  - rewrite (imap_ext _ (fun i => chainMetrics (S k + i))); [apply IH |].
    intros i chain' _. simpl. f_equal. lia.
Qed.

(** X6.  [Collect] never sends two samples with the same metric name and
    the same label values, whatever the prober returns: the samples of a
    certificate are told apart by serial number and issuer, those of
    different verified chains by the chain number. *)
Theorem Collect_no_duplicate_samples (e : Exporter) :
  NoDup (map identity (fst (CollectE e))).
Proof.
  destruct (prober_ e (target e) (module e) (timeout e))
    as [state | err] eqn:Hprobe.
  - destruct (tls.PeerCertificates state) as [|c certs] eqn:Hcerts.
    + unfold Collect. rewrite Hprobe, Hcerts. simpl.
      distinct_samples.
    + rewrite (Collect_success e state Hprobe) by (rewrite Hcerts; done).
      cbn [fst]. rewrite !map_app. apply NoDup_app. split.
      { simpl. distinct_samples. }
      split.
      { intros x Hx Hx'.
        apply list_elem_of_In, in_map_iff in Hx as (m & <- & Hm).
        apply list_elem_of_In, in_app_or in Hx'.
        destruct Hx' as [Hx' | Hx'];
          apply in_map_iff in Hx' as (m' & [= Hname _] & Hm').
        - apply in_flat_map in Hm' as (cert & _ & Hm').
          apply desc_peerCertificateMetrics in Hm' as [[Hd | Hd] _];
            rewrite Hd in Hname;
            destruct Hm as [<- | [<- | [<- | []]]]; discriminate.
        - apply In_concat_imap in Hm' as (i & chain & _ & Hm').
          apply desc_verifiedChainMetrics in Hm' as [[Hd | Hd] _];
            rewrite Hd in Hname;
            destruct Hm as [<- | [<- | [<- | []]]]; discriminate. }
      apply NoDup_app. split.
      { apply NoDup_identity_peerCertificateMetrics.
        rewrite uniq_Deduplicate. apply keepFirst_NoDup. }
      split.
      { intros x Hx Hx'.
        apply list_elem_of_In, in_map_iff in Hx as (m & <- & Hm).
        apply list_elem_of_In, in_map_iff in Hx' as (m' & [= Hname _] & Hm').
        apply in_flat_map in Hm as (cert & _ & Hm).
        apply In_concat_imap in Hm' as (i & chain & _ & Hm').
        apply desc_peerCertificateMetrics in Hm as [[Hd | Hd] _];
          apply desc_verifiedChainMetrics in Hm' as [[Hd' | Hd'] _];
          rewrite Hd, Hd' in Hname; discriminate. }
      apply (NoDup_identity_chains _ 0).
  - unfold Collect. rewrite Hprobe. simpl.
    distinct_samples.
Qed.

(** *** Timestamps as sample values *)

Lemma int64_range (z : Z) : MinInt64 <= int64 z <= MaxInt64.
Proof.
  unfold int64, MinInt64, MaxInt64.
  pose proof (Z.mod_pos_bound (z + 2 ^ 63) (2 ^ 64) ltac:(lia)). lia.
Qed.

Lemma int64_small (z : Z) : MinInt64 <= z <= MaxInt64 -> int64 z = z.
Proof.
  unfold int64, MinInt64, MaxInt64. intros Hz.
  rewrite Z.mod_small by lia. lia.
Qed.

(** X7.  Whatever the instant, the value [Collect] stores for it lies
    within 9223372036 seconds of the epoch, so the conversion to
    [float64] is exact. *)
Theorem unixSeconds_bounded (t : time.Time) :
  -9223372036 <= unixSeconds t <= 9223372036
  /\ - 2 ^ 53 < unixSeconds t < 2 ^ 53.
Proof.
  assert (-9223372036 <= unixSeconds t <= 9223372036) as H.
  { unfold unixSeconds, time.UnixNano.
    pose proof (int64_range (int64 (time.unixSec t * 1000000000) + time.nsec t))
      as Hr.
    unfold MinInt64, MaxInt64 in Hr.
    Z.to_euclidean_division_equations. lia. }
  split; [exact H | lia].
Qed.

(** X8.  For an instant [u] seconds and [n] nanoseconds after the epoch
    that fits the [int64] nanosecond count ([u] between -9223372036 and
    9223372035), the value stored is [u], the fraction of a second
    dropped; before the epoch the division truncates toward zero, which
    gives [u + 1] when [n] is not zero. *)
Theorem unixSeconds_truncates (u n : Z) :
  -9223372036 <= u <= 9223372035 -> 0 <= n < 1000000000 ->
  unixSeconds (time.mkTime (u + time.unixToInternal) n)
  = if (u <? 0) && (0 <? n) then u + 1 else u.
Proof.
  intros Hu Hn. unfold unixSeconds, time.UnixNano, time.unixSec; simpl.
  replace (u + time.unixToInternal + time.internalToUnix) with u
    by (unfold time.internalToUnix; lia).
  rewrite (int64_small u) by (unfold MinInt64, MaxInt64; lia).
  rewrite (int64_small (u * 1000000000))
    by (unfold MinInt64, MaxInt64; lia).
  rewrite int64_small by (unfold MinInt64, MaxInt64; lia).
  destruct (u <? 0) eqn:Hneg; destruct (0 <? n) eqn:Hfrac; simpl;
    Z.to_euclidean_division_equations; lia.
Qed.

(** *** The handler as a whole *)

(** X9.  [probeHandler] answers with an error exactly for the request
    errors; every other request is served the metrics that [Collect]
    gathers for an exporter holding the request's target, the module the
    request names and the prober registered under that module's prober
    name. *)
Theorem probeHandler_serves_or_fails (r : http.Request) (conf : config.Config) :
  (RequestError ParseFloat Probers conf r
   /\ exists msg code, probeHandlerE r conf = Error msg code)
  \/ (~ RequestError ParseFloat Probers conf r
      /\ exists e, probeHandlerE r conf = ServeHTTP e (CollectE e)
           /\ target e = http.Get (http.Query r) "target"
           /\ config.Modules conf !! moduleNameOf r = Some (module e)
           /\ Probers !! config.Prober (module e) = Some (prober_ e)).
Proof.
  unfold probeHandler. cbv zeta.
  fold (moduleNameOf r). fold (timeoutHeader r).
  unfold RequestError, UnknownModule, MalformedTimeout, MissingTarget,
    UnknownProber.
  destruct (config.Modules conf !! moduleNameOf r) as [module |] eqn:Hmod;
    [| left; split; [now left | eauto]].
  destruct (if negb (String.eqb (timeoutHeader r) "")
            then ParseFloat (timeoutHeader r) else inl 10%float)
    as [v | err] eqn:Hparse.
  - destruct (String.eqb_spec (http.Get (http.Query r) "target") "")
      as [Ht | Ht]; [left; split; [now right; right; left | eauto] |].
    destruct (Probers !! config.Prober module) as [p |] eqn:Hp.
    + right. split.
      * intros [Hu | [[Hne [err Herr]] | [Hm | (m & Hm & Hpm)]]].
        -- done.
        -- apply String.eqb_neq in Hne. rewrite Hne in Hparse. simpl in Hparse.
           congruence.
        -- done.
        -- injection Hm as <-. congruence.
      * eexists. split; [reflexivity |]. simpl. done.
    + left. split; [right; right; right; eauto | eauto].
  - left. split; [| eauto]. right. left.
    destruct (String.eqb_spec (timeoutHeader r) "") as [Hv | Hv];
      simpl in Hparse; [discriminate |]. eauto.
Qed.

(** X10.  A request without a module parameter, or with an empty one, is
    answered exactly as the same request with module=tcp. *)
Theorem probeHandler_default_module (r : http.Request) (conf : config.Config) :
  http.Get (http.Query r) "module" = "" ->
  probeHandlerE r conf
  = probeHandlerE
      (http.mkRequest (<["module" := ["tcp"]]> (http.Query r)) (http.Header r))
      conf.
Proof.
  intros Hmodule. unfold probeHandler. cbn [http.Query http.Header].
  assert (http.Get (<["module" := ["tcp"]]> (http.Query r)) "module" = "tcp")
    as -> by (unfold http.Get; now rewrite lookup_insert_eq).
  assert (http.Get (<["module" := ["tcp"]]> (http.Query r)) "target"
          = http.Get (http.Query r) "target")
    as -> by (unfold http.Get; now rewrite lookup_insert_ne).
  rewrite Hmodule. reflexivity.
Qed.

(** *** Reading a name back out of a label *)

Lemma fields_nonempty (s : string) : fields s <> [].
Proof.
  induction s as [|c s IH]; simpl; [done |].
  destruct (Ascii.eqb c comma); [done |]. now destruct (fields s).
Qed.

Lemma fields_app_comma (a b : string) :
  fields (a +:+ "," +:+ b) = fields a ++ fields b.
Proof.
  induction a as [|c a IH].
  - reflexivity.
  - rewrite append_cons. simpl. rewrite IH.
    destruct (Ascii.eqb c comma); [done |].
    pose proof (fields_nonempty a). now destruct (fields a).
Qed.

Lemma fields_commaFree (s : string) : commaFree s -> fields s = [s].
Proof.
  induction s as [|c s IH]; simpl; [done |].
  intros [Hc Hs]. rewrite (IH Hs).
  now apply Ascii.eqb_neq in Hc as ->.
Qed.

Lemma fields_Join_rest (names : list string) :
  Forall commaFree names ->
  forall s, commaFree s ->
  fields (s +:+ Join_rest names "," +:+ ",") = s :: names ++ [""].
Proof.
  induction 1 as [|x names Hx Hnames IH]; intros s Hs; simpl.
  - change ("" +:+ ",") with ("," +:+ "").
    now rewrite fields_app_comma, fields_commaFree.
  - rewrite append_assoc, append_assoc, fields_app_comma.
    now rewrite (IH x Hx), fields_commaFree.
Qed.

Lemma delimited_Join_rest (names : list string) :
  names <> [] -> delimited names = Join_rest names "," +:+ ",".
Proof.
  destruct names as [|x xs]; [done |]. intros _. simpl.
  now rewrite !append_assoc.
Qed.

Lemma Join_rest_app (l1 l2 : list string) (sep : string) :
  Join_rest (l1 ++ l2) sep = Join_rest l1 sep +:+ Join_rest l2 sep.
Proof.
  induction l1 as [|x l1 IH]; simpl; [done |].
  now rewrite IH, !append_assoc.
Qed.

Lemma delimited_In (names : list string) (n : string) :
  In n names -> delimitedIn n (delimited names).
Proof.
  intros Hin. rewrite delimited_Join_rest by (intros ->; destruct Hin).
  apply in_split in Hin as (l1 & l2 & ->).
  rewrite Join_rest_app. simpl.
  exists (Join_rest l1 ","),
         (match l2 with
          | [] => ""
          | x :: rest => x +:+ Join_rest rest "," +:+ ","
          end).
  rewrite !append_assoc. do 3 f_equal.
  destruct l2 as [|x rest]; simpl; [done |].
  now rewrite !append_assoc.
Qed.

Lemma delimitedIn_In (names : list string) (n : string) :
  Forall commaFree names -> commaFree n -> n <> "" ->
  delimitedIn n (delimited names) -> In n names.
Proof.
  intros Hnames Hn Hne (before & after & Heq).
  destruct names as [|x xs]; [now destruct before |].
  rewrite delimited_Join_rest in Heq by done.
  apply (f_equal fields) in Heq.
  change (Join_rest (x :: xs) "," +:+ ",")
    with ("" +:+ Join_rest (x :: xs) "," +:+ ",") in Heq.
  rewrite fields_Join_rest in Heq by done.
  rewrite !fields_app_comma, (fields_commaFree n Hn) in Heq.
  assert (In n ("" :: (x :: xs) ++ [""])) as Hin.
  { rewrite Heq. apply in_or_app. right. now left. }
  destruct Hin as [<- | Hin]; [done |].
  apply in_app_or in Hin as [Hin | [<- | []]]; done.
Qed.

(** X11.  The commas around every name make the labels searchable: as
    long as no name holds a comma, a non-empty comma-free string stands
    between two commas in the dnsnames label exactly when it is one of
    the certificate's DNS names; likewise for the emails, ou and ips
    labels. *)
Theorem name_labels_membership (cert : x509.Certificate) (n : string) :
  commaFree n -> n <> "" ->
  (Forall commaFree (x509.DNSNames cert) ->
   (In n (x509.DNSNames cert) <-> delimitedIn n (getDNSNames cert)))
  /\ (Forall commaFree (x509.EmailAddresses cert) ->
      (In n (x509.EmailAddresses cert)
       <-> delimitedIn n (getEmailAddresses cert)))
  /\ (Forall commaFree (pkix.OrganizationalUnit (x509.Subject cert)) ->
      (In n (pkix.OrganizationalUnit (x509.Subject cert))
       <-> delimitedIn n (getOrganizationalUnits cert)))
  /\ (Forall commaFree (map IP_String (x509.IPAddresses cert)) ->
      (In n (map IP_String (x509.IPAddresses cert))
       <-> delimitedIn n (getIPAddresses IP_String cert))).
Proof.
  intros Hn Hne.
  rewrite getDNSNames_delimited, getEmailAddresses_delimited,
    getOrganizationalUnits_delimited, getIPAddresses_delimited.
  repeat split; intros; try (now apply delimited_In);
    now apply delimitedIn_In.
Qed.

(** *** Deduplication, again *)

Lemma big_String_inj (x y : big.Int) : big.String x = big.String y -> x = y.
Proof.
  assert (forall z, decimal z <> "<nil>") as Hnil.
  { intros z Heq. apply (f_equal NilZero.int_of_string) in Heq.
    unfold decimal in Heq. rewrite NilZero.isi in Heq; [discriminate | |];
      destruct z; simpl; try discriminate;
      intros [= H]; now apply DecimalPos.Unsigned.to_uint_nonnil in H. }
  destruct x as [z |], y as [z' |]; simpl; intros Heq.
  - f_equal. now apply decimal_inj.
  - now apply Hnil in Heq.
  - symmetry in Heq. now apply Hnil in Heq.
  - done.
Qed.

(** X12.  [contains] compares serial numbers by their decimal strings,
    which tells apart any two different numbers and a missing number from
    every number: it reports a certificate exactly when the sequence holds
    one with the same serial number and the same issuer common name. *)
Theorem contains_same_serial_and_issuer (certs : list x509.Certificate)
  (cert : x509.Certificate) :
  contains certs cert = true
  <-> exists c, In c certs
        /\ x509.SerialNumber c = x509.SerialNumber cert
        /\ pkix.CommonName (x509.Issuer c)
           = pkix.CommonName (x509.Issuer cert).
Proof.
  rewrite contains_IdentityKey. unfold IdentityKey.
  split; intros (c & Hc & Hk); exists c; (split; [done |]).
  - injection Hk as Hs Hi. split; [now apply big_String_inj | done].
  - destruct Hk as [-> ->]. done.
Qed.

(** X13.  [uniq] returns its input unchanged exactly when the Identity
    Keys of the input are pairwise distinct; it never returns more
    certificates than it was given, and the first certificate of the
    input is always the first of the output. *)
Theorem uniq_unchanged_iff_distinct (certs : list x509.Certificate) :
  (uniq certs = certs <-> NoDup (map IdentityKey certs))
  /\ (length (uniq certs) <= length certs)%nat
  /\ head (uniq certs) = head certs.
Proof.
  rewrite uniq_Deduplicate. unfold Deduplicate. split; [split |].
  - intros <-. apply keepFirst_NoDup.
  - intros Hnd. apply keepFirst_id; [done | intros c d _ []].
  - split; [apply sublist_length, keepFirst_sublist |].
    now destruct certs.
Qed.

(** X18.  [uniq] returns as many certificates as the input has distinct
    Identity Keys, and the Identity Keys of its output are those of the
    input. *)
Theorem uniq_counts_distinct_keys (certs : list x509.Certificate) :
  length (uniq certs)
  = size (list_to_set (map IdentityKey certs) : gset (string * string))
  /\ (forall k, In k (map IdentityKey (uniq certs))
                <-> In k (map IdentityKey certs)).
Proof.
  assert (forall k, In k (map IdentityKey (uniq certs))
                    <-> In k (map IdentityKey certs)) as Hsame.
  { intros k. rewrite uniq_Deduplicate. unfold Deduplicate. split.
    - rewrite !in_map_iff. intros (c & <- & Hc).
      apply keepFirst_In in Hc as [Hc _]. eauto.
    - rewrite in_map_iff. intros (c & <- & Hc).
      destruct (keepFirst_covers [] certs c Hc) as [(d & [] & _) | H].
      exact H. }
  split; [| exact Hsame].
  rewrite <- (length_map IdentityKey (uniq certs)).
  rewrite <- (size_list_to_set (C := gset (string * string))).
  - f_equal. apply set_eq. intros k.
    rewrite !elem_of_list_to_set, !list_elem_of_In. apply Hsame.
  - rewrite uniq_Deduplicate. apply keepFirst_NoDup.
Qed.

(** *** Ranking, again *)

Lemma EffectiveExpiry_Permutation (chain chain' : list x509.Certificate)
  (t : time.Time) :
  Permutation chain chain' ->
  EffectiveExpiry chain t -> EffectiveExpiry chain' t.
Proof.
  intros Hp [[Hall ->] | (Hnz & (c & Hc & Hct) & Hmin)].
  - left. split; [| done]. rewrite List.Forall_forall in *.
    intros c Hc. apply Hall. now apply (Permutation_in _ (Permutation_sym Hp)).
  - right. split; [done |]. split.
    + exists c. split; [| done]. now apply (Permutation_in _ Hp).
    + intros d Hd. apply Hmin.
      now apply (Permutation_in _ (Permutation_sym Hp)).
Qed.

(** X14.  The effective expiry of a chain does not depend on the order of
    its certificates. *)
Theorem chainExpiry_Permutation (chain chain' : list x509.Certificate) :
  Permutation chain chain' -> chainExpiry chain = chainExpiry chain'.
Proof.
  intros Hp. apply (EffectiveExpiry_unique chain').
  - apply (EffectiveExpiry_Permutation chain); [done |].
    apply chainExpiry_EffectiveExpiry.
  - apply chainExpiry_EffectiveExpiry.
Qed.

(** X15.  The comparison [Collect] hands to [sort.Slice] is a strict weak
    ordering, as [sort.Slice] requires of it, and it leaves two chains
    unordered exactly when their effective expiries are the same instant;
    a chain is ranked by the zero instant exactly when none of its
    certificates has a NotAfter set. *)
Theorem chainLess_strict_weak_ordering :
  StrictWeakOrder chainLess
  /\ (forall X Y : list x509.Certificate,
        chainLess X Y = false /\ chainLess Y X = false
        <-> chainExpiry X = chainExpiry Y)
  /\ (forall X : list x509.Certificate,
        chainExpiry X = time.zero
        <-> Forall (fun c => time.IsZero (x509.NotAfter c) = true) X).
Proof.
  split; [apply chainLess_StrictWeakOrder |]. split.
  - intros X Y. unfold chainLess. split.
    + intros [H1 H2]. now apply not_After_antisym.
    + intros ->. split; apply After_irrefl.
  - intros X. split; [| apply chainExpiry_unset].
    intros Hzero.
    destruct (chainExpiry_EffectiveExpiry X) as [[Hall _] | (Hnz & _)];
      [done |].
    rewrite Hzero in Hnz. discriminate.
Qed.

(** *** The negotiated version *)

(** X16.  [getTLSVersion] answers "unknown" exactly for a version other
    than the four TLS versions it names, and for those four the label
    determines the version. *)
Theorem getTLSVersion_label (state state' : tls.ConnectionState) :
  (getTLSVersion state = "unknown"
   <-> tls.Version state <> tls.VersionTLS10
       /\ tls.Version state <> tls.VersionTLS11
       /\ tls.Version state <> tls.VersionTLS12
       /\ tls.Version state <> tls.VersionTLS13)
  /\ (getTLSVersion state = getTLSVersion state' ->
      getTLSVersion state = "unknown"
      \/ tls.Version state = tls.Version state').
Proof.
  unfold getTLSVersion, tls.VersionTLS10, tls.VersionTLS11,
    tls.VersionTLS12, tls.VersionTLS13.
  generalize (tls.Version state) (tls.Version state'). intros v v'.
  split.
  - destruct (Z.eqb_spec v 769); [split; [discriminate | lia] |].
    destruct (Z.eqb_spec v 770); [split; [discriminate | lia] |].
    destruct (Z.eqb_spec v 771); [split; [discriminate | lia] |].
    destruct (Z.eqb_spec v 772); [split; [discriminate | lia] |].
    split; [intros _; lia | reflexivity].
  - destruct (Z.eqb_spec v 769); [| destruct (Z.eqb_spec v 770);
      [| destruct (Z.eqb_spec v 771); [| destruct (Z.eqb_spec v 772)]]];
    (destruct (Z.eqb_spec v' 769); [| destruct (Z.eqb_spec v' 770);
      [| destruct (Z.eqb_spec v' 771); [| destruct (Z.eqb_spec v' 772)]]]);
    try discriminate; intros _; first [left; reflexivity | right; lia].
Qed.

(** *** The connection state on the early returns *)

(** X17.  When the handshake returned no certificate, [Collect] returns
    before it ranks the verified chains: the connection state is left
    exactly as the prober returned it, and no certificate sample of
    either kind is sent, whatever chains the state holds. *)
Theorem Collect_no_peer_certificates_untouched (e : Exporter)
  (state : tls.ConnectionState) :
  prober_ e (target e) (module e) (timeout e) = inl state ->
  tls.PeerCertificates state = [] ->
  snd (CollectE e) = Some state
  /\ samplesOf verifiedNotAfter (fst (CollectE e)) = []
  /\ samplesOf verifiedNotBefore (fst (CollectE e)) = []
  /\ samplesOf notAfter (fst (CollectE e)) = []
  /\ samplesOf notBefore (fst (CollectE e)) = [].
Proof.
  intros Hprobe Hpeer. unfold Collect. rewrite Hprobe, Hpeer. simpl.
  unfold samplesOf. simpl.
  repeat (rewrite bool_decide_eq_false_2 by discriminate). done.
Qed.

End Coverage.


(** ** Worked examples for the properties above *)

Lemma Collect_probe_failure_witness :
  Collect_go (exporterOf proberFailing)
  = ([ MustNewConstMetric proberType 1 ["tcp"];
       MustNewConstMetric tlsConnectSuccess 0 [] ], None)
  /\ map sampleOf (fst (Collect_go (exporterOf proberFailing)))
     = [ ("ssl_prober", 1); ("ssl_tls_connect_success", 0) ].
Proof.
  apply (Collect_probe_failure IP_String_dotted (@sort.Slice)
           (exporterOf proberFailing) "dial tcp: connection refused").
  reflexivity.
Defined.



Lemma unixSeconds_truncates_witness :
  unixSeconds (time.mkTime (-1 + time.unixToInternal) 500000000) = 0
  /\ unixSeconds (time.mkTime (1704067200 + time.unixToInternal) 999999999)
     = 1704067200.
Proof.
  split.
  - apply (unixSeconds_truncates (-1) 500000000); lia.
  - apply (unixSeconds_truncates 1704067200 999999999); lia.
Defined.

Lemma probeHandler_default_module_witness :
  probeHandler_go (requestWithTimeout "5") defaultConfig
  = probeHandler_go
      (http.mkRequest
         (<["module" := ["tcp"]]> (http.Query (requestWithTimeout "5")))
         (http.Header (requestWithTimeout "5")))
      defaultConfig.
Proof.
  apply (probeHandler_default_module IP_String_dotted (@sort.Slice)
           ParseFloat_integers Quote_plain unrep_amd64 someProbers
           (requestWithTimeout "5") defaultConfig).
  unfold requestWithTimeout, http.Get. cbn [http.Query].
  now rewrite lookup_singleton_ne.
Defined.

Lemma name_labels_membership_witness :
  (Forall commaFree (x509.DNSNames leafCert) ->
   (In "a.com" (x509.DNSNames leafCert)
    <-> delimitedIn "a.com" (getDNSNames leafCert)))
  /\ (Forall commaFree (x509.EmailAddresses leafCert) ->
      (In "a.com" (x509.EmailAddresses leafCert)
       <-> delimitedIn "a.com" (getEmailAddresses leafCert)))
  /\ (Forall commaFree (pkix.OrganizationalUnit (x509.Subject leafCert)) ->
      (In "a.com" (pkix.OrganizationalUnit (x509.Subject leafCert))
       <-> delimitedIn "a.com" (getOrganizationalUnits leafCert)))
  /\ (Forall commaFree (map IP_String_dotted (x509.IPAddresses leafCert)) ->
      (In "a.com" (map IP_String_dotted (x509.IPAddresses leafCert))
       <-> delimitedIn "a.com" (getIPAddresses IP_String_dotted leafCert))).
Proof.
  apply (name_labels_membership IP_String_dotted leafCert "a.com").
  - simpl. unfold comma. repeat split; discriminate.
  - discriminate.
Defined.

Lemma chainExpiry_Permutation_witness :
  chainExpiry [leafCert; caCert] = chainExpiry [caCert; leafCert].
Proof.
  apply (chainExpiry_Permutation [leafCert; caCert] [caCert; leafCert]).
  apply perm_swap.
Defined.

Lemma Collect_no_peer_certificates_untouched_witness :
  snd (Collect_go (exporterOf (proberReturning noPeerState)))
  = Some noPeerState
  /\ samplesOf verifiedNotAfter
       (fst (Collect_go (exporterOf (proberReturning noPeerState)))) = []
  /\ samplesOf verifiedNotBefore
       (fst (Collect_go (exporterOf (proberReturning noPeerState)))) = []
  /\ samplesOf notAfter
       (fst (Collect_go (exporterOf (proberReturning noPeerState)))) = []
  /\ samplesOf notBefore
       (fst (Collect_go (exporterOf (proberReturning noPeerState)))) = [].
Proof.
  apply (Collect_no_peer_certificates_untouched IP_String_dotted
           (@sort.Slice) (exporterOf (proberReturning noPeerState))
           noPeerState).
  - reflexivity.
  - reflexivity.
Defined.
